(** * Customer lookalike and segmentation scripts: a shallow embedding

    The repository consists of three scripts written against pandas, numpy
    and scikit-learn.  This development embeds the two analytic scripts,

    - [task2/Aditya_Bhutada_Lookalike.py] (profile aggregation, one-hot
      encoding, top-N lookalike extraction), and
    - [task3/clustering_script.py] (KMeans segmentation),

    as Rocq functions.  Library calls are given by the fragment of their
    documented behaviour the scripts rely on; every such definition names
    the call it stands for.  Floating point scores are represented by
    rationals: only their order and equality are used below. *)

From Stdlib Require Import List ZArith QArith String Ascii Bool Lia Arith.
From Stdlib Require Import Permutation Sorted DecimalString OrdersEx.
Import ListNotations.

Set Implicit Arguments.

Local Open Scope Q_scope.
Local Open Scope string_scope.
Local Open Scope list_scope.

(** ** Exceptions and results *)

(** The Python exceptions the modelled code can raise. *)
Inductive exn : Type :=
| IndexError
| TypeError
| ValueError
| InvalidParameterError.

Inductive result (A : Type) : Type :=
| Ok (a : A)
| Raise (e : exn).

Arguments Ok {A} a.
Arguments Raise {A} e.

Definition rbind {A B} (r : result A) (k : A -> result B) : result B :=
  match r with
  | Ok a => k a
  | Raise e => Raise e
  end.

Fixpoint rmap {A B} (f : A -> result B) (l : list A) : result (list B) :=
  match l with
  | [] => Ok []
  | x :: l' =>
      rbind (f x) (fun y => rbind (rmap f l') (fun ys => Ok (y :: ys)))
  end.

(** ** The numpy fragment *)

Module Numpy.

(** Python's [a[start:]] on a sequence: a negative start counts from the
    end, and both cases are clipped to the bounds.  Note [a[-0:]] is
    [a[0:]], the whole sequence. *)
Definition slice_from {A} (start : Z) (a : list A) : list A :=
  let n := Z.of_nat (List.length a) in
  let lo := if (start <? 0)%Z then Z.max 0 (n + start) else Z.min start n in
  skipn (Z.to_nat lo) a.

(** [a[::-1]]. *)
Definition reversed {A} (a : list A) : list A := rev a.

(** [enumerate]: positions paired with values. *)
Definition enumerate {A} (a : list A) : list (nat * A) :=
  combine (seq 0 (List.length a)) a.

Section Sorting.
Variable K : Type.
Variable leb : K -> K -> bool.

(** Insertion of an indexed key in front of the first entry that is not
    smaller: equal keys keep their original relative order. *)
Fixpoint insert (x : nat * K) (l : list (nat * K)) : list (nat * K) :=
  match l with
  | [] => [x]
  | y :: l' => if leb (snd x) (snd y) then x :: y :: l' else y :: insert x l'
  end.

Definition isort (l : list (nat * K)) : list (nat * K) :=
  fold_right insert [] l.

(** [np.argsort(a)]: the positions of [a] in ascending order of value.
    The default kind promises nothing about equal values; numpy sorts
    short arrays by insertion, which leaves their positions in increasing
    order, and that is the order taken here.  The facts proved below about
    sortedness, length and membership hold for any sorting permutation. *)
Definition argsort (a : list K) : list nat :=
  map fst (isort (enumerate a)).
End Sorting.

(** [a[i] = v] on a one-dimensional array. *)
Fixpoint set_item {A} (a : list A) (i : nat) (v : A) : result (list A) :=
  match a, i with
  | [], _ => Raise IndexError
  | _ :: a', O => Ok (v :: a')
  | x :: a', S i' => rbind (set_item a' i' v) (fun r => Ok (x :: r))
  end.

(** [a[i]] for an integer position [i]. *)
Definition get_item {A} (a : list A) (i : nat) : result A :=
  match nth_error a i with
  | Some x => Ok x
  | None => Raise IndexError
  end.

(** [a[idx]] for an integer array [idx] (fancy indexing). *)
Definition take {A} (a : list A) (idx : list nat) : result (list A) :=
  rmap (get_item a) idx.

End Numpy.

(** ** The pandas fragment and the tables *)

Module Pandas.

(** Rows of [Customers.csv], [Products.csv] and [Transactions.csv]; only the
    columns the scripts read are kept. *)
Record Customer : Type := mkCustomer {
  c_CustomerID : string;
  c_Region : string
}.

Record Product : Type := mkProduct {
  p_ProductID : string;
  p_Category : string
}.

Record Transaction : Type := mkTransaction {
  t_CustomerID : string;
  t_ProductID : string;
  t_Quantity : Z;
  t_TotalValue : Q
}.

(** Ascending sort of strings (Python compares [str] by code point). *)
Fixpoint insert_str (k : string) (l : list string) : list string :=
  match l with
  | [] => [k]
  | x :: l' => if String.leb k x then k :: l else x :: insert_str k l'
  end.

Definition sorted_strings (l : list string) : list string :=
  fold_right insert_str [] l.

(** The sorted distinct values of a column: the group keys of
    [groupby(...)] (which sorts them) and the result of [np.unique]. *)
Definition unique_sorted (l : list string) : list string :=
  nodup string_dec (sorted_strings l).

(** A signed 64-bit integer after an arithmetic step: the result is taken
    modulo [2^64] into [-2^63 .. 2^63 - 1] (overflow wraps silently). *)
Definition wrap_int64 (z : Z) : Z :=
  ((z + 9223372036854775808) mod 18446744073709551616
   - 9223372036854775808)%Z.

(** The ['sum'] aggregation of an [int64] column: the rows are added one
    after the other into a 64-bit accumulator. *)
Definition sumZ (l : list Z) : Z :=
  fold_left (fun acc x => wrap_int64 (acc + x)) l 0%Z.

(** The sum of a column of reals, taken exactly.  The ['sum'] aggregation
    of a [float64] column rounds after every addition; the exact sum stands
    for it where only the rows that enter a total matter. *)
Definition sumQ (l : list Q) : Q := fold_right Qplus 0 l.

(** [','.join(x)] over a column in which a missing value is the float
    [nan]: [str.join] raises [TypeError] on a non-string item. *)
Definition join_categories (x : list (option string)) : result string :=
  rbind
    (rmap (fun c => match c with
                    | Some s => Ok s
                    | None => Raise TypeError
                    end) x)
    (fun l => Ok (String.concat "," l)).

End Pandas.

(** ** Task 2: lookalike model *)

Module Lookalike.

Import Numpy.

(** The similarity matrix is a dense two-dimensional array of scores. *)
Definition matrix : Type := list (list Q).

(** Code that reads and writes the shared similarity matrix and may raise:
    a state-and-exception monad over the matrix. *)
Definition M (A : Type) : Type := matrix -> matrix * result A.

Definition ret {A} (a : A) : M A := fun m => (m, Ok a).

Definition bind {A B} (c : M A) (k : A -> M B) : M B :=
  fun m =>
    match c m with
    | (m', Ok a) => k a m'
    | (m', Raise e) => (m', Raise e)
    end.

Definition lift {A} (r : result A) : M A := fun m => (m, r).

Notation "x <- c ;; k" := (bind c (fun x => k))
  (at level 61, c at next level, right associativity).
Notation "c ;;; k" := (bind c (fun _ => k))
  (at level 61, right associativity).

(** [similarity_matrix[i]]: the row, a view into the matrix. *)
Definition read_row (i : nat) : M (list Q) :=
  fun m => (m, get_item m i).

(** Assignment through the row view: [row[j] = v] writes entry [(i, j)] of
    the matrix itself. *)
Definition write_row_item (i j : nat) (v : Q) : M unit :=
  fun m =>
    match get_item m i with
    | Raise e => (m, Raise e)
    | Ok row =>
        match set_item row j v with
        | Raise e => (m, Raise e)
        | Ok row' =>
            match set_item m i row' with
            | Raise e => (m, Raise e)
            | Ok m' => (m', Ok tt)
            end
        end
    end.

(** [customer_profiles.index[customer_profiles['CustomerID'] == customer_id].tolist()]:
    the positions whose identifier equals [customer_id]. *)
Fixpoint matching_index (customer_id : string) (ids : list string) (pos : nat)
  : list nat :=
  match ids with
  | [] => []
  | x :: ids' =>
      if String.eqb x customer_id
      then pos :: matching_index customer_id ids' (S pos)
      else matching_index customer_id ids' (S pos)
  end.

(** [customer_profiles.iloc[idx]['CustomerID']]. *)
Definition iloc (ids : list string) (idx : list nat) : result (list string) :=
  take ids idx.

(** [get_top_lookalikes(customer_id, similarity_matrix, customer_profiles, top_n)]
    (lines 52-64); [ids] is the [CustomerID] column of [customer_profiles],
    whose index is the default [0..M-1], and the matrix is the state.
    [customer_similarities] is a view of the matrix row: the assignment of
    line 57 goes through it, and lines 60-62 read the row as it is then. *)
Definition get_top_lookalikes (customer_id : string) (ids : list string)
    (top_n : Z) : M (list (string * Q)) :=
  customer_index <- lift (get_item (matching_index customer_id ids 0) 0) ;;
  read_row customer_index ;;;
  write_row_item customer_index customer_index (-1) ;;;
  customer_similarities <- read_row customer_index ;;
  let top_indices :=
    reversed (slice_from (- top_n) (argsort Qle_bool customer_similarities)) in
  top_customers <- lift (iloc ids top_indices) ;;
  top_scores <- lift (take customer_similarities top_indices) ;;
  ret (combine top_customers top_scores).

Definition default_top_n : Z := 3.

End Lookalike.

(** ** Task 2: profile aggregation and encoding *)

Module Aggregator.

Import Pandas.

(** A row of [transactions_df.merge(products_df, on='ProductID', how='left')]:
    the transaction with the product's category, missing ([nan]) when no
    product has the transaction's [ProductID]. *)
Record MergedRow : Type := mkMergedRow {
  m_CustomerID : string;
  m_ProductID : string;
  m_Quantity : Z;
  m_TotalValue : Q;
  m_Category : option string
}.

Definition merged_row (t : Transaction) (c : option string) : MergedRow :=
  mkMergedRow (t_CustomerID t) (t_ProductID t) (t_Quantity t)
    (t_TotalValue t) c.

(** Line 17: the left join keeps every transaction, once per matching
    product and once with a missing category when there is none. *)
Definition merged_data (transactions_df : list Transaction)
    (products_df : list Product) : list MergedRow :=
  flat_map
    (fun t =>
       match filter (fun p => String.eqb (p_ProductID p) (t_ProductID t))
               products_df with
       | [] => [merged_row t None]
       | ps => map (fun p => merged_row t (Some (p_Category p))) ps
       end)
    transactions_df.

(** One row of the aggregated frame (lines 20-28). *)
Record Aggregate : Type := mkAggregate {
  a_CustomerID : string;
  a_Quantity : Z;
  a_TotalValue : Q;
  a_Category : string
}.

Definition group (k : string) (rows : list MergedRow) : list MergedRow :=
  filter (fun r => String.eqb (m_CustomerID r) k) rows.

(** The three aggregations of one group. *)
Definition agg_group (rows : list MergedRow) (k : string) : result Aggregate :=
  let g := group k rows in
  rbind (join_categories (map m_Category g))
    (fun cat =>
       Ok (mkAggregate k (sumZ (map m_Quantity g))
             (sumQ (map m_TotalValue g)) cat)).

(** [merged_data.groupby('CustomerID').agg({...}).reset_index()]. *)
Definition groupby_agg (rows : list MergedRow) : result (list Aggregate) :=
  rmap (agg_group rows) (unique_sorted (map m_CustomerID rows)).

(** A row of [customer_profiles] after the left join with [customers_df]
    (line 31); the region is missing when no customer row matches. *)
Record Profile : Type := mkProfile {
  CustomerID : string;
  Quantity : Z;
  TotalValue : Q;
  Category : string;
  Region : option string
}.

Definition with_region (a : Aggregate) (r : option string) : Profile :=
  mkProfile (a_CustomerID a) (a_Quantity a) (a_TotalValue a) (a_Category a) r.

Definition merge_customers (aggs : list Aggregate)
    (customers_df : list Customer) : list Profile :=
  flat_map
    (fun a =>
       match filter (fun c => String.eqb (c_CustomerID c) (a_CustomerID a))
               customers_df with
       | [] => [with_region a None]
       | cs => map (fun c => with_region a (Some (c_Region c))) cs
       end)
    aggs.

(** Lines 17-31 of the lookalike script. *)
Definition customer_profiles (transactions_df : list Transaction)
    (products_df : list Product) (customers_df : list Customer)
  : result (list Profile) :=
  rbind (groupby_agg (merged_data transactions_df products_df))
    (fun aggs => Ok (merge_customers aggs customers_df)).

End Aggregator.

Module Encoder.

Import Pandas Aggregator.

Definition opt_eqb (a b : option string) : bool :=
  match a, b with
  | Some x, Some y => String.eqb x y
  | None, None => true
  | _, _ => false
  end.

Definition present (col : list (option string)) : list string :=
  flat_map (fun v => match v with Some s => [s] | None => [] end) col.

Definition is_missing (v : option string) : bool :=
  match v with None => true | Some _ => false end.

(** [OneHotEncoder.fit] on one column: [categories_] is the sorted distinct
    values, a missing value being a category of its own placed last. *)
Definition categories (col : list (option string)) : list (option string) :=
  map Some (unique_sorted (present col))
  ++ (if existsb is_missing col then [None] else []).

(** [OneHotEncoder.transform] of one value: one indicator per category. *)
Definition one_hot (cats : list (option string)) (v : option string) : list Q :=
  map (fun c => if opt_eqb c v then 1 else 0) cats.

Definition Region_column (profiles : list Profile) : list (option string) :=
  map Region profiles.

Definition Category_column (profiles : list Profile) : list (option string) :=
  map (fun p => Some (Category p)) profiles.

(** The categorical block of [preprocessor.fit_transform(customer_profiles)]
    (lines 35-46): for every profile the indicators of its [Region] followed
    by those of its [Category].  The two standardised numeric columns that
    precede it need a square root and are not modelled. *)
Definition categorical_block (profiles : list Profile) : list (list Q) :=
  map (fun p =>
         one_hot (categories (Region_column profiles)) (Region p)
         ++ one_hot (categories (Category_column profiles)) (Some (Category p)))
    profiles.

End Encoder.

(** ** Task 2: the script's query loop *)

Module LookalikeScript.

Import Pandas Aggregator Lookalike.

Fixpoint zeros (n : nat) : string :=
  match n with
  | O => EmptyString
  | S n' => String "0" (zeros n')
  end.

(** The format [f'C{i:04d}']: decimal digits padded with zeros to width 4. *)
Definition format_C04d (i : nat) : string :=
  let digits := DecimalString.NilZero.string_of_uint (Nat.to_uint i) in
  String "C" (zeros (4 - String.length digits) ++ digits).

(** [[f'C{i:04d}' for i in range(1, 21)]]. *)
Definition first_20_ids : list string := map format_C04d (seq 1 20).

(** Line 67: the rows of [customers_df] whose identifier is one of the
    twenty, in table order. *)
Definition top_20_customers (customers_df : list Customer) : list Customer :=
  filter (fun c => existsb (String.eqb (c_CustomerID c)) first_20_ids)
    customers_df.

(** A Python [dict] with string keys: insertion ordered, assignment to an
    existing key replaces the value in place. *)
Definition dict (V : Type) : Type := list (string * V).

Fixpoint dict_set {V} (k : string) (v : V) (d : dict V) : dict V :=
  match d with
  | [] => [(k, v)]
  | (k', v') :: d' =>
      if String.eqb k' k then (k, v) :: d' else (k', v') :: dict_set k v d'
  end.

(** Lines 70-72: the loop filling [lookalikes]; there is no handler, so an
    exception raised by a call ends the loop (and the script). *)
Fixpoint lookalikes_loop (queries : list string) (ids : list string)
    (lookalikes : dict (list (string * Q))) : M (dict (list (string * Q))) :=
  match queries with
  | [] => ret lookalikes
  | customer_id :: rest =>
      r <- get_top_lookalikes customer_id ids default_top_n ;;
      lookalikes_loop rest ids (dict_set customer_id r lookalikes)
  end.

Definition lookalikes (customers_df : list Customer) (profiles : list Profile)
  : M (dict (list (string * Q))) :=
  lookalikes_loop (map c_CustomerID (top_20_customers customers_df))
    (map CustomerID profiles) [].

End LookalikeScript.

(** ** Task 3: segmentation *)

Module Sklearn.

(** A sample or a centre: its coordinates. *)
Definition point : Type := list Q.

(** Squared Euclidean distance. *)
Fixpoint sq_dist (x c : point) : Q :=
  match x, c with
  | a :: x', b :: c' => (a - b) * (a - b) + sq_dist x' c'
  | _, _ => 0
  end.

Definition Qlt_bool (a b : Q) : bool := negb (Qle_bool b a).

(** The assignment step for one sample: the scan over the centres keeps the
    first one at the smallest distance (a later centre has to be strictly
    closer to replace it). *)
Fixpoint nearest_from (x : point) (centers : list point) (j : nat)
    (label : nat) (min_sq_dist : Q) : nat :=
  match centers with
  | [] => label
  | c :: cs =>
      let d := sq_dist x c in
      if Qlt_bool d min_sq_dist
      then nearest_from x cs (S j) j d
      else nearest_from x cs (S j) label min_sq_dist
  end.

Definition nearest (centers : list point) (x : point) : nat :=
  match centers with
  | [] => 0%nat
  | c :: cs => nearest_from x cs 1 0 (sq_dist x c)
  end.

(** The estimator [KMeans(n_clusters=..., random_state=...)]. *)
Record KMeans : Type := mkKMeans {
  n_clusters : Z;
  random_state : Z
}.

(** The checks [fit] makes before anything is computed: [n_clusters] is an
    integer not below 1 (parameter validation) and the data has at least
    [n_clusters] samples. *)
Definition check_params_vs_input (km : KMeans) (n_samples : nat) : result unit :=
  if (n_clusters km <? 1)%Z then Raise InvalidParameterError
  else if (Z.of_nat n_samples <? n_clusters km)%Z then Raise ValueError
  else Ok tt.

Section Fit.
(** The centres [fit] ends with ([cluster_centers_]): seeding from
    [random_state] followed by the refinement iterations.  It is floating
    point throughout and left as a parameter. *)
Variable cluster_centers : KMeans -> list point -> list point.

(** [KMeans.fit_predict(X)]: the returned labels are the assignment of
    every sample to its nearest final centre. *)
Definition fit_predict (km : KMeans) (X : list point) : result (list nat) :=
  rbind (check_params_vs_input km (List.length X))
    (fun _ => Ok (map (nearest (cluster_centers km X)) X)).
End Fit.

End Sklearn.

Module Clustering.

Import Pandas Sklearn.

(** A row of [transactions_df.merge(customers_df, on='CustomerID', how='left')]
    (line 14), restricted to the columns aggregated afterwards. *)
Definition merged_data (transactions_df : list Transaction)
    (customers_df : list Customer) : list Transaction :=
  flat_map
    (fun t =>
       match filter (fun c => String.eqb (c_CustomerID c) (t_CustomerID t))
               customers_df with
       | [] => [t]
       | cs => map (fun _ => t) cs
       end)
    transactions_df.

Record Profile : Type := mkProfile {
  CustomerID : string;
  Quantity : Z;
  TotalValue : Q
}.

(** Lines 17-24: per customer sums, group keys in ascending order. *)
Definition customer_profiles (transactions_df : list Transaction)
    (customers_df : list Customer) : list Profile :=
  let rows := merged_data transactions_df customers_df in
  map (fun k =>
         let g := filter (fun r => String.eqb (t_CustomerID r) k) rows in
         mkProfile k (sumZ (map t_Quantity g)) (sumQ (map t_TotalValue g)))
    (unique_sorted (map t_CustomerID rows)).

(** Line 31: [KMeans(n_clusters=4, random_state=42)]. *)
Definition kmeans : KMeans := mkKMeans 4 42.

Section Script.
Variable cluster_centers : KMeans -> list point -> list point.
(** [StandardScaler().fit_transform] on the two numeric columns: one
    scaled sample per profile (floating point, a parameter here). *)
Variable fit_transform : list (Z * Q) -> list point.

(** Lines 28-32: the [Cluster] column, paired with the identifiers. *)
Definition cluster_assignment (profiles : list Profile)
  : result (list (string * nat)) :=
  let scaled_data :=
    fit_transform (map (fun p => (Quantity p, TotalValue p)) profiles) in
  rbind (fit_predict cluster_centers kmeans scaled_data)
    (fun labels => Ok (combine (map CustomerID profiles) labels)).
End Script.

End Clustering.

(** ** Task 3: the quality scores *)

Module Metrics.

Import Pandas Sklearn Clustering.

(** [check_number_of_labels(n_labels, n_samples)], the first step of both
    [davies_bouldin_score] and [silhouette_score]: the number of distinct
    labels has to lie strictly between 1 and the number of samples. *)
Definition check_number_of_labels (n_labels n_samples : nat) : result unit :=
  if ((1 <? n_labels)%nat && (n_labels <? n_samples)%nat)%bool
  then Ok tt
  else Raise ValueError.

(** The number of distinct labels. *)
Definition n_labels (labels : list nat) : nat :=
  List.length (nodup Nat.eq_dec labels).

Section Script.
Variable cluster_centers : KMeans -> list point -> list point.
Variable fit_transform : list (Z * Q) -> list point.

(** Lines 28-38: the [Cluster] column followed by the two scores computed
    from it.  Of the scores only the check each of them starts with is
    kept: their values are floating point. *)
Definition scored_assignment (profiles : list Profile)
  : result (list (string * nat)) :=
  let scaled_data :=
    fit_transform (map (fun p => (Quantity p, TotalValue p)) profiles) in
  rbind (fit_predict cluster_centers kmeans scaled_data)
    (fun labels =>
       rbind (check_number_of_labels (n_labels labels) (List.length scaled_data))
         (fun _ =>
            rbind (check_number_of_labels (n_labels labels)
                     (List.length scaled_data))
              (fun _ => Ok (combine (map CustomerID profiles) labels)))).
End Script.

End Metrics.

(** ** Concrete inputs used in the examples *)

Module Examples.

Import Pandas Lookalike Sklearn.

(** Three profiled customers; the second and third have identical encoded
    vectors, hence equal similarity to the first. *)
Definition ids3 : list string := ["C0001"; "C0002"; "C0003"].

Definition sim3 : matrix :=
  [[1; 1 # 2; 1 # 2];
   [1 # 2; 1; 1];
   [1 # 2; 1; 1]].

Definition customers3 : list Customer :=
  [mkCustomer "C0001" "Asia"; mkCustomer "C0002" "Europe";
   mkCustomer "C0003" "Asia"].

Definition products2 : list Product :=
  [mkProduct "P001" "Books"; mkProduct "P002" "Electronics"].

(** [C0001] buys a book and an electronics item, [C0002] a book; [C0003]
    has no transaction. *)
Definition transactions3 : list Transaction :=
  [mkTransaction "C0002" "P001" 2 10;
   mkTransaction "C0001" "P001" 1 5;
   mkTransaction "C0001" "P002" 3 7].

(** The profile table these three tables lead to. *)
Definition profiles2 : list Aggregator.Profile :=
  [Aggregator.mkProfile "C0001" 4 12 "Books,Electronics" (Some "Asia");
   Aggregator.mkProfile "C0002" 2 10 "Books" (Some "Europe")].

(** [C0001] buys an electronics item and then two books. *)
Definition transactions_repeat : list Transaction :=
  [mkTransaction "C0001" "P002" 3 7;
   mkTransaction "C0001" "P001" 1 5;
   mkTransaction "C0001" "P001" 2 10].

(** The profile table of these purchases. *)
Definition profiles_repeat : list Aggregator.Profile :=
  [Aggregator.mkProfile "C0001" 6 22 "Electronics,Books,Books" (Some "Asia")].

(** A transaction whose product is not in the product table. *)
Definition orphan : Transaction := mkTransaction "C0001" "P999" 4 9.

(** Four customers with one transaction each. *)
Definition transactions4 : list Transaction :=
  [mkTransaction "C0001" "P001" 1 5;
   mkTransaction "C0002" "P001" 2 10;
   mkTransaction "C0003" "P002" 3 7;
   mkTransaction "C0004" "P002" 4 9].

(** Four customers with the same scaled sample. *)
Definition same4 : list point := [[0; 0]; [0; 0]; [0; 0]; [0; 0]].

(** Four well separated samples. *)
Definition corners4 : list point := [[0; 0]; [1; 0]; [0; 1]; [1; 1]].

(** Stand-ins for the two floating point stages in the examples: scaling
    that keeps the values, and centres placed on the first samples. *)
Definition plain_scale (rows : list (Z * Q)) : list point :=
  map (fun r => [inject_Z (fst r); snd r]) rows.

Definition first_samples (km : KMeans) (X : list point) : list point :=
  firstn (Z.to_nat (n_clusters km)) X.

(** Scaling of profiles that all have the same two totals: every scaled
    value is 0. *)
Definition zero_scale (rows : list (Z * Q)) : list point :=
  map (fun _ => [0; 0]) rows.

End Examples.

(** ** Specification predicates *)

Module Props.

Import Numpy Lookalike.

(** Ascending order of indexed keys under a boolean comparison. *)
Definition key_le {K} (leb : K -> K -> bool) (x y : nat * K) : Prop :=
  leb (snd x) (snd y) = true.

(** A ranking is in descending order of score. *)
Definition descending (res : list (string * Q)) : Prop :=
  StronglySorted (fun a b => snd b <= snd a) res.

(** The similarity matrix has one row and one column per profile, as
    [cosine_similarity(X)] has for [X] with one row per profile. *)
Definition square_over (ids : list string) (m : matrix) : Prop :=
  List.length m = List.length ids
  /\ Forall (fun row => List.length row = List.length ids) m.

(** Ties go to the lexicographically smaller identifier: of two entries
    with equal scores, the one listed first has the smaller identifier. *)
Definition ties_by_ascending_id (res : list (string * Q)) : Prop :=
  forall i j a b,
    (i < j)%nat ->
    nth_error res i = Some a ->
    nth_error res j = Some b ->
    snd a == snd b ->
    String.ltb (fst a) (fst b) = true.

(** The (position, score) pairs selected from a row, best first: the
    selection [argsort(row)[-top_n:][::-1]] with the scores carried along. *)
Definition ranked (top_n : Z) (row : list Q) : list (nat * Q) :=
  reversed (slice_from (- top_n) (isort Qle_bool (enumerate row))).

(** Entry [(a, b)] of a matrix. *)
Definition entry (m : matrix) (a b : nat) : option Q :=
  match nth_error m a with
  | Some row => nth_error row b
  | None => None
  end.

(** Following the spec's words for a transaction with an unknown product
    ("drop the transaction row from aggregation"): the transactions whose
    product identifier is in the product table. *)
Definition spec_resolved_transactions (transactions_df : list Pandas.Transaction)
    (products_df : list Pandas.Product) : list Pandas.Transaction :=
  filter
    (fun t =>
       existsb (fun p => String.eqb (Pandas.p_ProductID p) (Pandas.t_ProductID t))
         products_df)
    transactions_df.

(** [cats] lists each value of the column [col] once. *)
Definition vocabulary_of (col cats : list (option string)) : Prop :=
  NoDup cats /\ forall v, In v cats <-> In v col.

(** [vec] has one entry per category, 1 at the category equal to [v] and 0
    at every other one. *)
Definition indicator_of (cats : list (option string)) (v : option string)
    (vec : list Q) : Prop :=
  List.length vec = List.length cats
  /\ forall j c,
       nth_error cats j = Some c ->
       (c = v -> nth_error vec j = Some 1)
       /\ (c <> v -> nth_error vec j = Some 0).

(** Functional update of a list position, the effect of a successful
    [set_item]. *)
Definition updated {A} (a : list A) (i : nat) (v : A) : list A :=
  firstn i a ++ v :: skipn (S i) a.

End Props.

(** ** Task 1: the exploratory analysis *)

Module Eda.

Import Pandas Aggregator.

Section Series.
Variable K : Type.
Variable K_dec : forall a b : K, {a = b} + {a <> b}.

(** A [Series]: labels with their values, in order. *)
Definition series (V : Type) : Type := list (K * V).

(** The distinct values of a column in the order in which they first
    appear. *)
Definition first_seen (col : list K) : list K :=
  rev (nodup K_dec (rev col)).

Section Values.
Variable V : Type.
Variable ltb : V -> V -> bool.

(** [sort_values(ascending=False)]: descending order of value.  The order
    pandas gives to equal values is not fixed; here they keep their
    relative order, and nothing proved below depends on it. *)
Fixpoint insert_desc (x : K * V) (s : series V) : series V :=
  match s with
  | [] => [x]
  | y :: s' => if ltb (snd x) (snd y) then y :: insert_desc x s' else x :: s
  end.

Definition sort_values_desc (s : series V) : series V :=
  fold_right insert_desc [] s.

(** The scan behind [idxmax] and [idxmin]: the entry kept is replaced only
    by a strictly better one, so the first of several best entries wins. *)
Fixpoint first_best (better : V -> V -> bool) (best : K * V) (s : series V)
  : K * V :=
  match s with
  | [] => best
  | kv :: s' =>
      if better (snd kv) (snd best)
      then first_best better kv s'
      else first_best better best s'
  end.

(** The entry [idxmax] points at; an empty series raises [ValueError]. *)
Definition max_entry (s : series V) : result (K * V) :=
  match s with
  | [] => Raise ValueError
  | kv :: s' => Ok (first_best (fun new best => ltb best new) kv s')
  end.

Definition min_entry (s : series V) : result (K * V) :=
  match s with
  | [] => Raise ValueError
  | kv :: s' => Ok (first_best (fun new best => ltb new best) kv s')
  end.

(** [s.idxmax()] and [s.idxmin()]: the label of the first largest and of
    the first smallest value. *)
Definition idxmax (s : series V) : result K :=
  rbind (max_entry s) (fun kv => Ok (fst kv)).

Definition idxmin (s : series V) : result K :=
  rbind (min_entry s) (fun kv => Ok (fst kv)).
End Values.

(** [col.value_counts()]: every distinct value with its number of
    occurrences, most frequent first.  Values with the same count are left
    here in the order of their first occurrence; the order among them is
    not part of what is proved about the counts below. *)
Definition value_counts (col : list K) : series nat :=
  sort_values_desc Nat.ltb
    (map (fun v => (v, count_occ K_dec col v)) (first_seen col)).

(** [s.sort_index()]: ascending order of label. *)
Variable K_leb : K -> K -> bool.

Fixpoint insert_index {V} (x : K * V) (s : series V) : series V :=
  match s with
  | [] => [x]
  | y :: s' => if K_leb (fst x) (fst y) then x :: s else y :: insert_index x s'
  end.

Definition sort_index {V} (s : series V) : series V :=
  fold_right insert_index [] s.
End Series.

(** Lines 31-32 and 120-122: customers per region, and the regions with
    the most and the fewest customers. *)
Definition region_counts (customers_df : list Customer) : series string nat :=
  value_counts string_dec (map c_Region customers_df).

Definition most_common_region (customers_df : list Customer) : result string :=
  idxmax Nat.ltb (region_counts customers_df).

Definition least_common_region (customers_df : list Customer) : result string :=
  idxmin Nat.ltb (region_counts customers_df).

(** The categories that occur in the joined rows; a row whose category is
    missing has no group ([groupby] drops missing keys). *)
Definition known_categories (rows : list MergedRow) : list string :=
  unique_sorted
    (flat_map (fun r => match m_Category r with Some c => [c] | None => [] end)
       rows).

Definition in_category (k : string) (r : MergedRow) : bool :=
  match m_Category r with
  | Some c => String.eqb c k
  | None => false
  end.

(** Lines 56-58: total sales per category, largest first, and the category
    with the largest total. *)
Definition category_sales (transactions_df : list Transaction)
    (products_df : list Product) : series string Q :=
  let rows := merged_data transactions_df products_df in
  sort_values_desc Sklearn.Qlt_bool
    (map (fun k => (k, sumQ (map m_TotalValue (filter (in_category k) rows))))
       (known_categories rows)).

Definition top_category (transactions_df : list Transaction)
    (products_df : list Product) : result string :=
  idxmax Sklearn.Qlt_bool (category_sales transactions_df products_df).

(** A calendar date and its month, [dt.to_period('M')]. *)
Record Date : Type := mkDate {
  year : Z;
  month : Z;
  day : Z
}.

Definition Period : Type := (Z * Z)%type.

Definition to_period_M (d : Date) : Period := (year d, month d).

Definition Period_dec (a b : Period) : {a = b} + {a <> b}.
Proof. decide equality; apply Z.eq_dec. Defined.

(** Chronological order of months. *)
Definition Period_leb (a b : Period) : bool :=
  ((fst a <? fst b) || ((fst a =? fst b) && (snd a <=? snd b)))%Z.

(** Lines 43-44 and 81-82: the number of rows per month in chronological
    order, and the month [idxmax] picks; [dates] is the [SignupDate] or the
    [TransactionDate] column. *)
Definition monthly_counts (dates : list Date) : series Period nat :=
  sort_index Period_leb (value_counts Period_dec (map to_period_M dates)).

Definition peak_month (dates : list Date) : result Period :=
  idxmax Nat.ltb (monthly_counts dates).

End Eda.

(** ** Further vocabulary for the properties of the scripts *)

Module Views.

Import Pandas.

(** The transactions of one customer, in table order. *)
Definition transactions_of (k : string) (transactions_df : list Transaction)
  : list Transaction :=
  filter (fun t => String.eqb (t_CustomerID t) k) transactions_df.

(** How many rows a left join produces for a key: one per matching row of
    the right table, and one when there is none. *)
Definition multiplicity (k : string) (right_keys : list string) : nat :=
  Nat.max 1 (count_occ string_dec right_keys k).

(** Strictly ascending order of identifiers. *)
Definition strictly_ascending (l : list string) : Prop :=
  StronglySorted (fun a b => String.ltb a b = true) l.

(** [d[k]] on a [dict]: the value stored under the key, if any. *)
Definition dict_get {V} (k : string) (d : LookalikeScript.dict V) : option V :=
  option_map snd (find (fun kv => String.eqb (fst kv) k) d).

(** The value of a call that returned. *)
Definition returned {A} (r : result (list A)) : list A :=
  match r with
  | Ok x => x
  | Raise _ => []
  end.

(** Two matrices agree outside the diagonal. *)
Definition off_diagonal_agree (m m' : Lookalike.matrix) : Prop :=
  forall a b, a <> b -> Props.entry m' a b = Props.entry m a b.

(** The sum of integers, without any bound. *)
Definition total (l : list Z) : Z := fold_right Z.add 0%Z l.

(** The value fits a signed 64-bit integer. *)
Definition in_int64 (z : Z) : Prop :=
  (- 9223372036854775808 <= z < 9223372036854775808)%Z.

(** The categories of the products that the transactions of one customer
    name, in the order of the transaction table, one for every transaction
    and product row with its identifier: a category bought twice is listed
    twice. *)
Definition bought_categories (k : string) (transactions_df : list Transaction)
    (products_df : list Product) : list string :=
  flat_map
    (fun t =>
       map p_Category
         (filter (fun p => String.eqb (p_ProductID p) (t_ProductID t))
            products_df))
    (transactions_of k transactions_df).

(** The transactions whose product is in the product table. *)
Definition known_product_transactions (transactions_df : list Transaction)
    (products_df : list Product) : list Transaction :=
  filter
    (fun t =>
       existsb (fun p => String.eqb (p_ProductID p) (t_ProductID t)) products_df)
    transactions_df.

(** One month is strictly before another. *)
Definition earlier (a b : Eda.Period) : Prop :=
  Eda.Period_leb a b = true /\ a <> b.

(** Every entry of a row is 0 or 1. *)
Definition indicators (row : list Q) : Prop :=
  Forall (fun x => x = 0 \/ x = 1) row.

End Views.

(** * Facts about the numpy fragment *)

Unset Implicit Arguments.

Section SortingFacts.
Import Numpy Props.
Variable K : Type.
Variable leb : K -> K -> bool.
Hypothesis leb_total : forall a b, leb a b = true \/ leb b a = true.
Hypothesis leb_trans :
  forall a b c, leb a b = true -> leb b c = true -> leb a c = true.

Lemma insert_perm (x : nat * K) l : Permutation (insert leb x l) (x :: l).
Proof.
  induction l as [|y l IH]; simpl; auto.
  destruct (leb (snd x) (snd y)); auto.
  rewrite IH. apply perm_swap.
Qed.

Lemma isort_perm (l : list (nat * K)) : Permutation (isort leb l) l.
Proof.
  induction l as [|x l IH]; simpl; auto.
  rewrite insert_perm. now constructor.
Qed.

Lemma insert_sorted (x : nat * K) l :
  StronglySorted (key_le leb) l -> StronglySorted (key_le leb) (insert leb x l).
Proof.
  induction 1 as [|y l Hs IH Hall]; simpl.
  - repeat constructor.
  - destruct (leb (snd x) (snd y)) eqn:E.
    + constructor; [now constructor|].
      constructor; [exact E|].
      eapply Forall_impl; [|exact Hall].
      intros z Hz. unfold key_le in *. eauto.
    + constructor; [exact IH|].
      eapply Permutation_Forall; [symmetry; apply insert_perm|].
      constructor; [|exact Hall].
      unfold key_le. destruct (leb_total (snd x) (snd y)); congruence.
Qed.

Lemma isort_sorted (l : list (nat * K)) : StronglySorted (key_le leb) (isort leb l).
Proof.
  induction l; simpl; [constructor | now apply insert_sorted].
Qed.

Lemma isort_length (l : list (nat * K)) : List.length (isort leb l) = List.length l.
Proof. apply Permutation_length, isort_perm. Qed.
End SortingFacts.

Section ListFacts.
Import Numpy Props.
Context {A : Type}.

Lemma slice_from_map {B} (f : A -> B) k (l : list A) :
  slice_from k (map f l) = map f (slice_from k l).
Proof.
  unfold slice_from. rewrite length_map. apply skipn_map.
Qed.

Lemma slice_from_incl k (l : list A) : incl (slice_from k l) l.
Proof.
  unfold slice_from. intros x Hx.
  rewrite <- (firstn_skipn (Z.to_nat
    (if (k <? 0)%Z then Z.max 0 (Z.of_nat (List.length l) + k)
     else Z.min k (Z.of_nat (List.length l)))) l).
  apply in_or_app. now right.
Qed.

(** [a[-n:]] for a positive [n] has [min n (len a)] elements. *)
Lemma slice_from_last_length (n : Z) (l : list A) :
  (1 <= n)%Z ->
  List.length (slice_from (- n) l) = Nat.min (Z.to_nat n) (List.length l).
Proof.
  intros Hn. unfold slice_from.
  destruct (Z.ltb_spec (- n) 0); [|lia].
  rewrite length_skipn. lia.
Qed.

(** [a[-n:]] is the whole of [a] once [n] reaches its length. *)
Lemma slice_from_last_all (n : Z) (l : list A) :
  (1 <= n)%Z -> (Z.of_nat (List.length l) <= n)%Z -> slice_from (- n) l = l.
Proof.
  intros Hn Hl. unfold slice_from.
  destruct (Z.ltb_spec (- n) 0); [|lia].
  replace (Z.to_nat _) with 0%nat by lia. reflexivity.
Qed.

Lemma StronglySorted_skipn (R : A -> A -> Prop) n (l : list A) :
  StronglySorted R l -> StronglySorted R (skipn n l).
Proof.
  revert l. induction n as [|n IH]; intros l H; simpl; auto.
  destruct l; auto. inversion H; subst. auto.
Qed.

Lemma StronglySorted_app_one (R : A -> A -> Prop) (l : list A) x :
  StronglySorted R l -> Forall (fun y => R y x) l -> StronglySorted R (l ++ [x]).
Proof.
  induction 1 as [|y l Hs IH Hall]; intros Hx; simpl.
  - repeat constructor.
  - inversion Hx; subst. constructor; auto.
    apply Forall_app. split; auto.
Qed.

Lemma StronglySorted_rev (R : A -> A -> Prop) (l : list A) :
  StronglySorted R l -> StronglySorted (fun a b => R b a) (rev l).
Proof.
  induction 1 as [|y l Hs IH Hall]; simpl; [constructor|].
  apply StronglySorted_app_one; auto.
  apply Forall_rev. exact Hall.
Qed.

Lemma StronglySorted_map {B} (R : B -> B -> Prop) (f : A -> B) (l : list A) :
  StronglySorted (fun a b => R (f a) (f b)) l -> StronglySorted R (map f l).
Proof.
  induction 1 as [|y l Hs IH Hall]; simpl; constructor; auto.
  apply Forall_map. exact Hall.
Qed.

Lemma set_item_ok (a : list A) i v :
  (i < List.length a)%nat -> set_item a i v = Ok (updated a i v).
Proof.
  revert i. induction a as [|x a IH]; intros [|i] H; simpl in *; try lia; auto.
  rewrite IH by lia. reflexivity.
Qed.

Lemma set_item_raise (a : list A) i v :
  (List.length a <= i)%nat -> set_item a i v = Raise IndexError.
Proof.
  revert i. induction a as [|x a IH]; intros [|i] H; simpl in *; try lia; auto.
  rewrite IH by lia. reflexivity.
Qed.

Lemma updated_length (a : list A) i v :
  (i < List.length a)%nat -> List.length (updated a i v) = List.length a.
Proof.
  intros H. unfold updated.
  rewrite length_app, length_firstn, length_cons, length_skipn. lia.
Qed.

Lemma updated_nth_same (a : list A) i v :
  (i < List.length a)%nat -> nth_error (updated a i v) i = Some v.
Proof.
  intros H. unfold updated.
  rewrite nth_error_app2; rewrite length_firstn; [|lia].
  replace (i - Nat.min i (List.length a))%nat with 0%nat by lia. reflexivity.
Qed.

Lemma updated_nth_other (a : list A) i j v :
  (i < List.length a)%nat -> i <> j ->
  nth_error (updated a i v) j = nth_error a j.
Proof.
  revert i j. unfold updated.
  induction a as [|x a IH]; intros i j Hi H; simpl in Hi; [lia|].
  destruct i as [|i], j as [|j]; try congruence; try reflexivity.
  change (nth_error (firstn i a ++ v :: skipn (S i) a) j = nth_error a j).
  apply IH; [lia | congruence].
Qed.

Lemma enumerate_nth (a : list A) j v :
  In (j, v) (enumerate a) -> nth_error a j = Some v.
Proof.
  unfold enumerate. intros H.
  assert (G : forall (l : list A) s j v,
             In (j, v) (combine (seq s (List.length l)) l) ->
             (s <= j)%nat /\ nth_error l (j - s) = Some v).
  { clear. induction l as [|x l IH]; simpl; intros s j v H; [tauto|].
    destruct H as [H|H].
    - inversion H; subst. rewrite Nat.sub_diag. split; [lia|reflexivity].
    - apply IH in H. destruct H as [H1 H2]. split; [lia|].
      replace (j - s)%nat with (S (j - S s)) by lia. exact H2. }
  apply G in H. destruct H as [_ H]. now rewrite Nat.sub_0_r in H.
Qed.

Lemma enumerate_fst (a : list A) : map fst (enumerate a) = seq 0 (List.length a).
Proof.
  unfold enumerate. generalize 0%nat.
  induction a as [|x a IH]; intros s; simpl; [reflexivity|].
  now rewrite IH.
Qed.

Lemma take_ok {B} (a : list A) (f : B -> nat) (g : B -> A) (sel : list B) :
  (forall p, In p sel -> nth_error a (f p) = Some (g p)) ->
  take a (map f sel) = Ok (map g sel).
Proof.
  unfold take. induction sel as [|p sel IH]; intros H; simpl; [reflexivity|].
  unfold get_item at 1. rewrite (H p) by now left. simpl.
  rewrite IH; [reflexivity|]. intros q Hq. apply H. now right.
Qed.

Lemma combine_map {B C} (f : A -> B) (g : A -> C) (l : list A) :
  combine (map f l) (map g l) = map (fun x => (f x, g x)) l.
Proof. induction l; simpl; congruence. Qed.
End ListFacts.

(** * Facts about [get_top_lookalikes] *)

Section LookalikeFacts.
Import Numpy Lookalike Props.

Lemma Qle_bool_total a b : Qle_bool a b = true \/ Qle_bool b a = true.
Proof.
  rewrite !Qle_bool_iff.
  destruct (Qlt_le_dec a b) as [H|H]; [left; now apply Qlt_le_weak | now right].
Qed.

Lemma Qle_bool_trans a b c :
  Qle_bool a b = true -> Qle_bool b c = true -> Qle_bool a c = true.
Proof. rewrite !Qle_bool_iff. apply Qle_trans. Qed.

Lemma matching_index_spec cid ids pos i :
  In i (matching_index cid ids pos) ->
  (pos <= i)%nat /\ nth_error ids (i - pos) = Some cid.
Proof.
  revert pos. induction ids as [|x ids IH]; simpl; intros pos H; [tauto|].
  assert (G : In i (matching_index cid ids (S pos)) ->
              (pos <= i)%nat /\ nth_error (x :: ids) (i - pos) = Some cid).
  { intros Hi. apply IH in Hi. destruct Hi as [Hle Hn]. split; [lia|].
    replace (i - pos)%nat with (S (i - S pos)) by lia. exact Hn. }
  destruct (String.eqb_spec x cid) as [->|Hne]; [|now apply G].
  destruct H as [<-|H]; [|now apply G].
  rewrite Nat.sub_diag. split; [lia|reflexivity].
Qed.

Lemma matching_index_absent cid ids pos :
  ~ In cid ids -> matching_index cid ids pos = [].
Proof.
  revert pos. induction ids as [|x ids IH]; simpl; intros pos H; [reflexivity|].
  destruct (String.eqb_spec x cid) as [->|Hne]; [tauto|].
  apply IH. tauto.
Qed.

Lemma matching_index_present cid ids pos :
  In cid ids -> exists i rest, matching_index cid ids pos = i :: rest.
Proof.
  revert pos. induction ids as [|x ids IH]; simpl; intros pos H; [tauto|].
  destruct (String.eqb_spec x cid) as [->|Hne]; [eauto|].
  apply IH. destruct H; congruence.
Qed.

(** The position [get_top_lookalikes] works at: the first row of the
    profile table carrying the identifier. *)
Lemma customer_index_ok cid ids :
  In cid ids ->
  exists i, get_item (matching_index cid ids 0) 0 = Ok i
            /\ nth_error ids i = Some cid.
Proof.
  intros H. destruct (matching_index_present cid ids 0 H) as (i & rest & E).
  exists i. rewrite E. split; [reflexivity|].
  assert (Hi : In i (matching_index cid ids 0)) by (rewrite E; now left).
  apply matching_index_spec in Hi. now rewrite Nat.sub_0_r in Hi.
Qed.

(** On a known customer and a matrix of the right shape the call returns:
    it overwrites the diagonal entry of the customer's row and lists the
    selected positions with their identifiers and scores. *)
Lemma get_top_lookalikes_run cid ids top_n m :
  In cid ids -> square_over ids m ->
  exists i row,
    get_item (matching_index cid ids 0) 0 = Ok i
    /\ nth_error ids i = Some cid
    /\ nth_error m i = Some row
    /\ List.length row = List.length ids
    /\ get_top_lookalikes cid ids top_n m =
         (updated m i (updated row i (-1)),
          Ok (map (fun p => (nth (fst p) ids "", snd p))
                (ranked top_n (updated row i (-1))))).
Proof.
  intros Hin [Hlen Hrows].
  destruct (customer_index_ok cid ids Hin) as (i & Hidx & Hid).
  assert (Hi : (i < List.length ids)%nat)
    by (apply nth_error_Some; congruence).
  destruct (nth_error m i) as [row|] eqn:Hrow;
    [|apply nth_error_None in Hrow; lia].
  assert (Hr : List.length row = List.length ids).
  { rewrite Forall_forall in Hrows. apply Hrows.
    eapply nth_error_In; eauto. }
  exists i, row. repeat (split; [assumption|]).
  set (row' := updated row i (-1)).
  assert (Hr' : List.length row' = List.length ids)
    by (unfold row'; rewrite updated_length; lia).
  unfold get_top_lookalikes, bind, lift, read_row, write_row_item, ret.
  rewrite Hidx. unfold get_item at 1 2. rewrite Hrow.
  rewrite set_item_ok by lia. fold row'.
  rewrite set_item_ok by lia.
  unfold get_item at 1. rewrite updated_nth_same by lia.
  unfold argsort, reversed. rewrite slice_from_map, <- map_rev.
  fold (reversed (slice_from (- top_n) (isort Qle_bool (enumerate row')))).
  fold (ranked top_n row').
  assert (Hsel : forall p, In p (ranked top_n row') ->
                           nth_error row' (fst p) = Some (snd p)).
  { intros [j v] Hp. apply enumerate_nth. unfold ranked, reversed in Hp.
    apply in_rev, slice_from_incl in Hp.
    eapply Permutation_in; [apply isort_perm|exact Hp]. }
  unfold iloc.
  rewrite (take_ok ids fst (fun p => nth (fst p) ids "")).
  - rewrite (take_ok row' fst snd) by exact Hsel.
    now rewrite combine_map.
  - intros p Hp. apply nth_error_nth'.
    rewrite <- Hr'. apply nth_error_Some. rewrite (Hsel p Hp). discriminate.
Qed.
End LookalikeFacts.

(** * Task 2: the ranking returned by [get_top_lookalikes] *)

Section Ranking.
Import Numpy Lookalike Props Examples.

Lemma StronglySorted_weaken {A} (R R' : A -> A -> Prop) l :
  (forall a b, R a b -> R' a b) -> StronglySorted R l -> StronglySorted R' l.
Proof.
  intros HR. induction 1 as [|x l Hs IH Hall]; constructor; auto.
  eapply Forall_impl; [|exact Hall]. auto.
Qed.

Lemma ranked_descending top_n row :
  StronglySorted (fun a b : nat * Q => snd b <= snd a) (ranked top_n row).
Proof.
  unfold ranked, reversed, slice_from.
  apply StronglySorted_rev with (R := fun a b : nat * Q => snd a <= snd b).
  apply StronglySorted_skipn.
  apply StronglySorted_weaken with (R := key_le Qle_bool).
  - intros a b. unfold key_le. apply Qle_bool_iff.
  - exact (isort_sorted Q Qle_bool Qle_bool_total Qle_bool_trans _).
Qed.

(** C1 (as amended): for a customer with a profile row and a similarity
    matrix with one row and column per profile, [get_top_lookalikes]
    returns, for every [top_n], a list in descending order of score.  The
    order among equal scores is the one the reversed [argsort] leaves;
    no comparison of identifiers takes place. *)
Theorem C1_scores_descending cid ids top_n m :
  In cid ids -> square_over ids m ->
  exists res,
    snd (get_top_lookalikes cid ids top_n m) = Ok res /\ descending res.
Proof.
  intros Hin Hsq.
  destruct (get_top_lookalikes_run cid ids top_n m Hin Hsq)
    as (i & row & _ & _ & _ & _ & E).
  rewrite E. eexists. split; [reflexivity|].
  unfold descending.
  apply StronglySorted_map with (R := fun a b : string * Q => snd b <= snd a).
  apply ranked_descending.
Qed.

Lemma C1_scores_descending_witness :
  exists res,
    snd (get_top_lookalikes "C0001" ids3 2 sim3) = Ok res /\ descending res.
Proof.
  apply (C1_scores_descending "C0001" ids3 2 sim3).
  - simpl. auto.
  - unfold square_over. split; [reflexivity|].
    repeat constructor.
Defined.

(** C1 (as stated) fails: with [C0002] and [C0003] tied at 1/2, the
    ascending insertion sort lists position 1 before position 2 and the
    reversal puts [C0003] in front of [C0002]. *)
Lemma C1_ties_counterexample :
  snd (get_top_lookalikes "C0001" ids3 2 sim3)
    = Ok [("C0003", 1 # 2); ("C0002", 1 # 2)]
  /\ ~ ties_by_ascending_id [("C0003", 1 # 2); ("C0002", 1 # 2)].
Proof.
  split; [reflexivity|].
  intros H.
  specialize (H 0%nat 1%nat ("C0003", 1 # 2) ("C0002", 1 # 2)).
  simpl in H.
  assert (Hlt : (0 < 1)%nat) by lia.
  specialize (H Hlt eq_refl eq_refl (Qeq_refl _)).
  vm_compute in H. discriminate.
Qed.

(** C2: with three profiled customers and the default [top_n = 3] the
    query customer itself is returned, with the score [-1] written over
    its self-similarity. *)
Theorem C2_self_listed_small_dataset :
  snd (get_top_lookalikes "C0001" ids3 default_top_n sim3)
    = Ok [("C0003", 1 # 2); ("C0002", 1 # 2); ("C0001", -1)]
  /\ In "C0001"
       (map fst [("C0003", 1 # 2); ("C0002", 1 # 2); ("C0001", -1)]).
Proof.
  split; [reflexivity|]. simpl. auto.
Qed.
End Ranking.

(** * Task 2: how many candidates are returned *)

Section ResultCount.
Import Numpy Lookalike Props Examples.

Lemma enumerate_length {A} (a : list A) :
  List.length (enumerate a) = List.length a.
Proof.
  unfold enumerate. rewrite length_combine, length_seq. apply Nat.min_id.
Qed.

Lemma sorted_positions row :
  Permutation (map fst (isort Qle_bool (enumerate row)))
    (seq 0 (List.length row)).
Proof.
  rewrite <- enumerate_fst. apply Permutation_map, isort_perm.
Qed.

Lemma NoDup_skipn {A} n (l : list A) : NoDup l -> NoDup (skipn n l).
Proof.
  intros H. rewrite <- (firstn_skipn n l) in H.
  now apply NoDup_app_remove_l in H.
Qed.

Lemma ranked_positions top_n row :
  map fst (ranked top_n row)
  = rev (slice_from (- top_n) (map fst (isort Qle_bool (enumerate row)))).
Proof.
  unfold ranked, reversed. now rewrite map_rev, slice_from_map.
Qed.

Lemma ranked_positions_NoDup top_n row : NoDup (map fst (ranked top_n row)).
Proof.
  rewrite ranked_positions. apply NoDup_rev. unfold slice_from.
  apply NoDup_skipn.
  eapply Permutation_NoDup; [symmetry; apply sorted_positions|].
  apply seq_NoDup.
Qed.

Lemma ranked_positions_bound top_n row j :
  In j (map fst (ranked top_n row)) -> (j < List.length row)%nat.
Proof.
  rewrite ranked_positions. intros H.
  apply in_rev, slice_from_incl in H.
  eapply Permutation_in in H; [|apply sorted_positions].
  apply in_seq in H. lia.
Qed.

Lemma ranked_length top_n row :
  (1 <= top_n)%Z ->
  List.length (ranked top_n row)
  = Nat.min (Z.to_nat top_n) (List.length row).
Proof.
  intros H. unfold ranked, reversed.
  rewrite length_rev, slice_from_last_length by exact H.
  now rewrite isort_length, enumerate_length.
Qed.

Lemma ranked_all top_n row j :
  (1 <= top_n)%Z -> (Z.of_nat (List.length row) <= top_n)%Z ->
  (j < List.length row)%nat -> In j (map fst (ranked top_n row)).
Proof.
  intros H1 H2 Hj. rewrite ranked_positions. apply -> in_rev.
  rewrite slice_from_last_all.
  - eapply Permutation_in; [symmetry; apply sorted_positions|].
    apply in_seq. lia.
  - exact H1.
  - rewrite length_map, isort_length, enumerate_length. exact H2.
Qed.

Lemma NoDup_map_nth (ids : list string) (js : list nat) :
  NoDup ids -> NoDup js ->
  (forall j, In j js -> (j < List.length ids)%nat) ->
  NoDup (map (fun j => nth j ids "") js).
Proof.
  intros Hids Hjs. induction Hjs as [|j js Hnin Hjs IH]; intros Hb; simpl.
  - constructor.
  - constructor.
    + intros Hin. apply in_map_iff in Hin. destruct Hin as (j' & E & Hj').
      assert (j' = j).
      { eapply (proj1 (NoDup_nth ids "") Hids); auto.
        - apply Hb. now right.
        - apply Hb. now left. }
      subst. contradiction.
    + apply IH. intros j' Hj'. apply Hb. now right.
Qed.

(** X26: for a positive [top_n], a customer with a profile row and
    distinct profile identifiers, the call returns pairs with distinct
    identifiers; exactly [top_n] of them when at least [top_n] other
    customers exist, and otherwise every other customer is among them. *)
Theorem X26_distinct_candidates_and_count cid ids top_n m :
  In cid ids -> NoDup ids -> square_over ids m -> (1 <= top_n)%Z ->
  exists res,
    snd (get_top_lookalikes cid ids top_n m) = Ok res
    /\ NoDup (map fst res)
    /\ ((top_n <= Z.of_nat (List.length ids) - 1)%Z ->
        Z.of_nat (List.length res) = top_n)
    /\ ((Z.of_nat (List.length ids) - 1 < top_n)%Z ->
        forall c, In c ids -> c <> cid -> In c (map fst res)).
Proof.
  intros Hin Hnd Hsq Hn.
  destruct (get_top_lookalikes_run cid ids top_n m Hin Hsq)
    as (i & row & _ & Hid & _ & Hlen & E).
  assert (Hi : (i < List.length row)%nat)
    by (rewrite Hlen; apply nth_error_Some; congruence).
  set (row' := updated row i (-1)) in *.
  assert (Hlen' : List.length row' = List.length ids)
    by (unfold row'; rewrite updated_length; lia).
  rewrite E. eexists. split; [reflexivity|].
  rewrite map_map. simpl.
  rewrite <- (map_map fst (fun j => nth j ids "")).
  split; [|split].
  - apply NoDup_map_nth; [exact Hnd | apply ranked_positions_NoDup |].
    intros j Hj. rewrite <- Hlen'. eapply ranked_positions_bound; eauto.
  - intros Hle. rewrite length_map, ranked_length, Hlen' by exact Hn. lia.
  - intros Hgt c Hc _.
    destruct (In_nth ids c "" Hc) as (j & Hj & Ej).
    apply in_map_iff. exists j. split; [exact Ej|].
    apply ranked_all; [exact Hn | lia | lia].
Qed.

Lemma X26_distinct_candidates_and_count_witness :
  exists res,
    snd (get_top_lookalikes "C0002" ids3 2 sim3) = Ok res
    /\ NoDup (map fst res)
    /\ ((2 <= Z.of_nat (List.length ids3) - 1)%Z ->
        Z.of_nat (List.length res) = 2%Z)
    /\ ((Z.of_nat (List.length ids3) - 1 < 2)%Z ->
        forall c, In c ids3 -> c <> "C0002" -> In c (map fst res)).
Proof.
  apply (X26_distinct_candidates_and_count "C0002" ids3 2 sim3).
  - simpl. auto.
  - repeat constructor; simpl; intuition discriminate.
  - unfold square_over. split; [reflexivity | repeat constructor].
  - lia.
Defined.

End ResultCount.

(** * Task 2: the effect of a query on the similarity matrix *)

Section MatrixFrame.
Import Numpy Lookalike Props Examples.

(** Whatever the call returns, the matrix it leaves is either the one it
    was given or that matrix with [-1] at the diagonal position of the
    query customer's row. *)
Lemma get_top_lookalikes_state cid ids top_n m :
  fst (get_top_lookalikes cid ids top_n m) = m
  \/ exists i row,
       get_item (matching_index cid ids 0) 0 = Ok i
       /\ nth_error m i = Some row
       /\ (i < List.length row)%nat
       /\ fst (get_top_lookalikes cid ids top_n m)
          = updated m i (updated row i (-1)).
Proof.
  unfold get_top_lookalikes, bind, lift, read_row, write_row_item, ret.
  destruct (get_item (matching_index cid ids 0) 0) as [i|e] eqn:Hidx;
    [|now left].
  destruct (get_item m i) as [row|e] eqn:Hg; [|now left].
  assert (Hrow : nth_error m i = Some row).
  { unfold get_item in Hg. destruct (nth_error m i); congruence. }
  destruct (Nat.lt_ge_cases i (List.length row)) as [Hi|Hi].
  - right. exists i, row. repeat (split; [auto; fail|]).
    rewrite set_item_ok by exact Hi.
    assert (Hm : (i < List.length m)%nat)
      by (apply nth_error_Some; congruence).
    rewrite set_item_ok by exact Hm.
    destruct (get_item (updated _ _ _) i); [|reflexivity].
    destruct (iloc _ _); [|reflexivity].
    destruct (take _ _); reflexivity.
  - left. now rewrite set_item_raise by exact Hi.
Qed.

(** C9 (as amended): a query changes at most one entry of the shared
    similarity matrix, the diagonal entry of the query customer's row,
    which becomes [-1]; every other entry is left as it was. *)
Theorem C9_only_diagonal_entry_written cid ids top_n m a b :
  entry (fst (get_top_lookalikes cid ids top_n m)) a b = entry m a b
  \/ (get_item (matching_index cid ids 0) 0 = Ok a
      /\ b = a
      /\ entry (fst (get_top_lookalikes cid ids top_n m)) a b = Some (-1)).
Proof.
  destruct (get_top_lookalikes_state cid ids top_n m)
    as [E | (i & row & Hidx & Hrow & Hi & E)]; rewrite E; [now left|].
  assert (Hm : (i < List.length m)%nat)
    by (apply nth_error_Some; congruence).
  unfold entry.
  destruct (Nat.eq_dec i a) as [->|Hne].
  - rewrite updated_nth_same by exact Hm. rewrite Hrow.
    destruct (Nat.eq_dec a b) as [->|Hne].
    + right. rewrite updated_nth_same by exact Hi. auto.
    + left. now apply updated_nth_other.
  - left. now rewrite updated_nth_other.
Qed.

(** C9 (as stated) fails: the query for [C0001] replaces the entry
    [(0, 0)] of the matrix it was handed. *)
Lemma C9_matrix_counterexample :
  entry sim3 0 0 = Some 1
  /\ entry (fst (get_top_lookalikes "C0001" ids3 default_top_n sim3)) 0 0
     = Some (-1)
  /\ fst (get_top_lookalikes "C0001" ids3 default_top_n sim3) <> sim3.
Proof.
  split; [reflexivity|]. split; [reflexivity|]. discriminate.
Qed.
End MatrixFrame.

(** * Facts about results and the pandas fragment *)

Section ResultFacts.
Context {A B : Type}.

Lemma rmap_ok (f : A -> result B) l l' :
  rmap f l = Ok l' -> Forall2 (fun x y => f x = Ok y) l l'.
Proof.
  revert l'. induction l as [|x l IH]; simpl; intros l' H.
  - inversion H. constructor.
  - destruct (f x) as [y|e] eqn:Ex; simpl in H; [|discriminate].
    destruct (rmap f l) as [ys|e]; simpl in H; [|discriminate].
    inversion H; subst. constructor; auto.
Qed.

Lemma rmap_raises (f : A -> result B) l e :
  rmap f l = Raise e -> exists x, In x l /\ f x = Raise e.
Proof.
  induction l as [|x l IH]; simpl; intros H; [discriminate|].
  destruct (f x) as [y|e'] eqn:Ex; simpl in H.
  - destruct (rmap f l) as [ys|e']; simpl in H; [discriminate|].
    destruct IH as (x' & Hx' & E); [congruence|]. eauto.
  - inversion H; subst. eauto.
Qed.

Lemma rmap_some_raise (f : A -> result B) l x e :
  In x l -> f x = Raise e -> exists e', rmap f l = Raise e'.
Proof.
  induction l as [|y l IH]; simpl; intros Hin Hx; [tauto|].
  destruct (f y) as [b|e'] eqn:Ey; simpl; [|eauto].
  destruct Hin as [->|Hin]; [congruence|].
  destruct (IH Hin Hx) as (e' & ->). simpl. eauto.
Qed.
End ResultFacts.

Section PandasFacts.
Import Pandas.

Lemma insert_str_In k l x : In x (insert_str k l) <-> x = k \/ In x l.
Proof.
  induction l as [|y l IH]; simpl.
  - intuition.
  - destruct (String.leb k y); simpl; [intuition|].
    rewrite IH. intuition.
Qed.

Lemma sorted_strings_In l x : In x (sorted_strings l) <-> In x l.
Proof.
  induction l as [|y l IH]; simpl; [tauto|].
  rewrite insert_str_In, IH. intuition.
Qed.

Lemma unique_sorted_In l x : In x (unique_sorted l) <-> In x l.
Proof.
  unfold unique_sorted. now rewrite nodup_In, sorted_strings_In.
Qed.

Lemma unique_sorted_NoDup l : NoDup (unique_sorted l).
Proof. apply NoDup_nodup. Qed.

Lemma join_categories_missing x :
  In None x -> join_categories x = Raise TypeError.
Proof.
  unfold join_categories. intros H.
  assert (G : rmap (fun c : option string =>
                      match c with Some s => Ok s | None => Raise TypeError end) x
              = Raise TypeError).
  { induction x as [|[s|] x IH]; simpl in *; [tauto | | reflexivity].
    rewrite IH; [reflexivity|]. destruct H; [discriminate|assumption]. }
  now rewrite G.
Qed.

Lemma wrap_int64_small z : Views.in_int64 z -> wrap_int64 z = z.
Proof.
  unfold Views.in_int64, wrap_int64. intros H.
  rewrite Z.mod_small by lia. lia.
Qed.

Lemma wrap_int64_add_l u v : wrap_int64 (wrap_int64 u + v) = wrap_int64 (u + v).
Proof.
  unfold wrap_int64. f_equal.
  replace ((u + 9223372036854775808) mod 18446744073709551616
           - 9223372036854775808 + v + 9223372036854775808)%Z
    with ((u + 9223372036854775808) mod 18446744073709551616 + v)%Z by lia.
  rewrite Zplus_mod_idemp_l. f_equal. lia.
Qed.

(** The 64-bit accumulator ends with the exact sum taken modulo [2^64]. *)
Lemma sumZ_total l : sumZ l = wrap_int64 (Views.total l).
Proof.
  unfold sumZ.
  assert (G : forall a,
             fold_left (fun acc x => wrap_int64 (acc + x)) l (wrap_int64 a)
             = wrap_int64 (a + Views.total l)).
  { induction l as [|x l IH]; intros a; simpl.
    - now rewrite Z.add_0_r.
    - rewrite wrap_int64_add_l, IH. f_equal. lia. }
  exact (G 0%Z).
Qed.

Lemma total_cons x l : Views.total (x :: l) = (x + Views.total l)%Z.
Proof. reflexivity. Qed.

Lemma total_app l l' : Views.total (l ++ l') = (Views.total l + Views.total l')%Z.
Proof. induction l as [|x l IH]; simpl; [reflexivity|]. rewrite IH. lia. Qed.

Lemma total_constant {A} (l : list A) v :
  Views.total (map (fun _ => v) l) = (Z.of_nat (List.length l) * v)%Z.
Proof.
  induction l as [|x l IH]; [reflexivity|].
  cbn [map List.length]. rewrite total_cons, IH. lia.
Qed.
End PandasFacts.

(** * Task 2: customers without a profile row *)

Section MissingProfile.
Import Numpy Pandas Aggregator Lookalike LookalikeScript Props Examples.

Lemma merged_data_customer ts ps r :
  In r (merged_data ts ps) ->
  exists t, In t ts /\ m_CustomerID r = t_CustomerID t.
Proof.
  unfold merged_data. rewrite in_flat_map. intros (t & Ht & Hr).
  exists t. split; [exact Ht|].
  destruct (filter _ ps) as [|p ps'].
  - destruct Hr as [<-|[]]. reflexivity.
  - apply in_map_iff in Hr. destruct Hr as (p' & <- & _). reflexivity.
Qed.

Lemma groupby_agg_keys rows aggs :
  groupby_agg rows = Ok aggs ->
  map a_CustomerID aggs = unique_sorted (map m_CustomerID rows).
Proof.
  unfold groupby_agg. intros H. apply rmap_ok in H.
  induction H as [|k a ks aggs' Hk _ IH]; simpl; [reflexivity|].
  rewrite IH. f_equal.
  unfold agg_group in Hk.
  destruct (join_categories _); simpl in Hk; [|discriminate].
  now inversion Hk.
Qed.

Lemma merge_customers_ids aggs cs p :
  In p (merge_customers aggs cs) ->
  In (CustomerID p) (map a_CustomerID aggs).
Proof.
  unfold merge_customers. rewrite in_flat_map. intros (a & Ha & Hp).
  apply in_map_iff. exists a. split; [|exact Ha].
  destruct (filter _ cs) as [|c cs'].
  - destruct Hp as [<-|[]]. reflexivity.
  - apply in_map_iff in Hp. destruct Hp as (c' & <- & _). reflexivity.
Qed.

(** Profile rows exist only for customers that occur in a transaction. *)
Lemma customer_profiles_ids ts ps cs profiles cid :
  customer_profiles ts ps cs = Ok profiles ->
  In cid (map CustomerID profiles) ->
  In cid (map t_CustomerID ts).
Proof.
  unfold customer_profiles. intros H Hin.
  destruct (groupby_agg (merged_data ts ps)) as [aggs|e] eqn:Eg;
    simpl in H; [|discriminate].
  inversion H; subst. clear H.
  apply in_map_iff in Hin. destruct Hin as (p & <- & Hp).
  apply merge_customers_ids in Hp.
  rewrite (groupby_agg_keys _ _ Eg), unique_sorted_In in Hp.
  apply in_map_iff in Hp. destruct Hp as (r & <- & Hr).
  apply merged_data_customer in Hr. destruct Hr as (t & Ht & ->).
  now apply in_map.
Qed.

Lemma get_item_raises {A} (a : list A) i e :
  get_item a i = Raise e -> e = IndexError.
Proof. unfold get_item. destruct (nth_error a i); congruence. Qed.

Lemma set_item_raises {A} (a : list A) i v e :
  set_item a i v = Raise e -> e = IndexError.
Proof.
  revert i. induction a as [|x a IH]; intros [|i]; simpl; try congruence.
  destruct (set_item a i v) eqn:E; simpl; [discriminate|].
  intros H. inversion H; subst. eauto.
Qed.

Lemma take_raises {A} (a : list A) idx e :
  take a idx = Raise e -> e = IndexError.
Proof.
  unfold take. intros H. apply rmap_raises in H.
  destruct H as (i & _ & H). eapply get_item_raises; eauto.
Qed.

(** [IndexError] is the only exception the call can raise. *)
Lemma get_top_lookalikes_raises cid ids top_n m e :
  snd (get_top_lookalikes cid ids top_n m) = Raise e -> e = IndexError.
Proof.
  unfold get_top_lookalikes, bind, lift, read_row, write_row_item, ret, iloc.
  repeat match goal with
  | |- context [match get_item ?a ?i with _ => _ end] =>
      let E := fresh "E" in
      destruct (get_item a i) eqn:E;
      [|simpl; intros H; inversion H; subst; eauto using get_item_raises]
  | |- context [match set_item ?a ?i ?v with _ => _ end] =>
      let E := fresh "E" in
      destruct (set_item a i v) eqn:E;
      [|simpl; intros H; inversion H; subst; eauto using set_item_raises]
  | |- context [match take ?a ?i with _ => _ end] =>
      let E := fresh "E" in
      destruct (take a i) eqn:E;
      [|simpl; intros H; inversion H; subst; eauto using take_raises]
  end.
  simpl. discriminate.
Qed.

Lemma get_top_lookalikes_unknown cid ids top_n m :
  ~ In cid ids -> get_top_lookalikes cid ids top_n m = (m, Raise IndexError).
Proof.
  intros H. unfold get_top_lookalikes, bind, lift.
  now rewrite matching_index_absent.
Qed.

Lemma lookalikes_loop_unknown queries ids acc m cid :
  In cid queries -> ~ In cid ids ->
  exists m', lookalikes_loop queries ids acc m = (m', Raise IndexError).
Proof.
  revert acc m. induction queries as [|q qs IH]; simpl; intros acc m Hq Hn;
    [tauto|].
  unfold bind.
  destruct (get_top_lookalikes q ids default_top_n m) as [m1 [r|e]] eqn:E.
  - destruct Hq as [->|Hq].
    + rewrite get_top_lookalikes_unknown in E by exact Hn. discriminate.
    + apply IH; assumption.
  - exists m1. f_equal. f_equal.
    apply (get_top_lookalikes_raises q ids default_top_n m).
    now rewrite E.
Qed.

(** C10: a customer without any transaction has no profile row; for it
    [get_top_lookalikes] raises [IndexError] at the subscript [[0]],
    leaving the matrix as it was, and when it is among the queried
    customers the loop filling [lookalikes] ends with that exception. *)
Theorem C10_no_profile_IndexError ts ps cs profiles cid top_n m :
  customer_profiles ts ps cs = Ok profiles ->
  ~ In cid (map t_CustomerID ts) ->
  get_item (matching_index cid (map CustomerID profiles) 0) 0
    = Raise IndexError
  /\ get_top_lookalikes cid (map CustomerID profiles) top_n m
     = (m, Raise IndexError)
  /\ (In cid (map c_CustomerID (top_20_customers cs)) ->
      exists m', lookalikes cs profiles m = (m', Raise IndexError)).
Proof.
  intros Hp Hn.
  assert (Hnp : ~ In cid (map CustomerID profiles)).
  { intros Hin. apply Hn. eapply customer_profiles_ids; eauto. }
  split; [|split].
  - now rewrite matching_index_absent.
  - now apply get_top_lookalikes_unknown.
  - intros Hq. unfold lookalikes.
    eapply lookalikes_loop_unknown; eauto.
Qed.

Lemma C10_no_profile_IndexError_witness :
  get_item
    (matching_index "C0003"
       (map CustomerID profiles2) 0) 0
    = Raise IndexError
  /\ get_top_lookalikes "C0003"
       (map CustomerID profiles2) default_top_n sim3
     = (sim3, Raise IndexError)
  /\ (In "C0003" (map c_CustomerID (top_20_customers customers3)) ->
      exists m',
        lookalikes customers3 profiles2 sim3
        = (m', Raise IndexError)).
Proof.
  apply (C10_no_profile_IndexError transactions3 products2 customers3).
  - reflexivity.
  - simpl. intuition discriminate.
Defined.
End MissingProfile.

(** * Task 2: transactions with an unknown product *)

Section UnknownProduct.
Import Pandas Aggregator Props Examples.

Lemma no_matching_product ps pid :
  ~ In pid (map p_ProductID ps) ->
  filter (fun p => String.eqb (p_ProductID p) pid) ps = [].
Proof.
  induction ps as [|p ps IH]; simpl; intros H; [reflexivity|].
  destruct (String.eqb_spec (p_ProductID p) pid) as [E|E]; [tauto|].
  apply IH. tauto.
Qed.

Lemma unknown_product_row t ts ps :
  In t ts -> ~ In (t_ProductID t) (map p_ProductID ps) ->
  In (merged_row t None) (merged_data ts ps).
Proof.
  intros Ht Hp. unfold merged_data. apply in_flat_map.
  exists t. split; [exact Ht|].
  rewrite no_matching_product by exact Hp. now left.
Qed.

Lemma agg_group_raises rows k e : agg_group rows k = Raise e -> e = TypeError.
Proof.
  unfold agg_group, join_categories.
  destruct (rmap _ _) as [l|e'] eqn:E; simpl; [discriminate|].
  intros H. inversion H; subst.
  apply rmap_raises in E. destruct E as ([c|] & _ & Hc); congruence.
Qed.

(** What becomes of the run: the category of the kept row is missing and
    joining the categories of its customer's group raises. *)
Lemma unknown_product_raises t ts ps cs :
  In t ts -> ~ In (t_ProductID t) (map p_ProductID ps) ->
  customer_profiles ts ps cs = Raise TypeError.
Proof.
  intros Ht Hp.
  pose proof (unknown_product_row t ts ps Ht Hp) as Hrow.
  set (rows := merged_data ts ps) in *.
  assert (Hk : In (t_CustomerID t) (unique_sorted (map m_CustomerID rows))).
  { apply unique_sorted_In, in_map_iff. exists (merged_row t None). auto. }
  assert (Hg : agg_group rows (t_CustomerID t) = Raise TypeError).
  { unfold agg_group. rewrite join_categories_missing; [reflexivity|].
    apply in_map_iff. exists (merged_row t None). split; [reflexivity|].
    apply filter_In. split; [exact Hrow|]. simpl. apply String.eqb_refl. }
  destruct (rmap_some_raise (agg_group rows) _ _ _ Hk Hg) as (e & He).
  unfold customer_profiles, groupby_agg. fold rows. rewrite He. simpl.
  apply rmap_raises in He. destruct He as (k & _ & He).
  now rewrite (agg_group_raises _ _ _ He).
Qed.

(** C3: on the example tables extended by one transaction for the product
    [P999], which the product table does not have, the left join keeps the
    transaction with a missing category and the aggregation raises
    [TypeError]: the run ends without a profile table and without any
    count of warnings.  Leaving the transaction out, as the claim has it,
    would give the two profiles of the remaining transactions. *)
Theorem C3_unknown_product_aborts_the_run :
  ~ In (t_ProductID orphan) (map p_ProductID products2)
  /\ In (merged_row orphan None)
       (merged_data (orphan :: transactions3) products2)
  /\ customer_profiles (orphan :: transactions3) products2 customers3
     = Raise TypeError
  /\ spec_resolved_transactions (orphan :: transactions3) products2
     = transactions3
  /\ customer_profiles transactions3 products2 customers3 = Ok profiles2.
Proof.
  split; [simpl; intuition discriminate|].
  split; [simpl; auto|].
  split; [reflexivity|]. split; reflexivity.
Qed.
End UnknownProduct.

(** * Task 2: the categorical encoding *)

Section Encoding.
Import Pandas Aggregator Encoder Props Examples.

Lemma opt_eqb_eq a b : opt_eqb a b = true <-> a = b.
Proof.
  destruct a as [x|], b as [y|]; simpl; try (split; congruence).
  rewrite String.eqb_eq. split; congruence.
Qed.

Lemma NoDup_map_Some (l : list string) : NoDup l -> NoDup (map Some l).
Proof.
  induction 1 as [|x l Hn Hl IH]; simpl; constructor; auto.
  rewrite in_map_iff. intros (y & E & Hy). inversion E; subst. contradiction.
Qed.

Lemma present_In col s : In s (present col) <-> In (Some s) col.
Proof.
  unfold present. rewrite in_flat_map. split.
  - intros ([x|] & Hx & Hs); simpl in Hs; [|tauto].
    destruct Hs as [->|[]]. exact Hx.
  - intros H. exists (Some s). simpl. auto.
Qed.

Lemma missing_In col : existsb is_missing col = true <-> In None col.
Proof.
  rewrite existsb_exists. split.
  - intros ([x|] & Hx & Hm); simpl in Hm; [discriminate | exact Hx].
  - intros H. exists None. auto.
Qed.

(** [categories_] has one entry per distinct value of the column. *)
Lemma categories_vocabulary col : vocabulary_of col (categories col).
Proof.
  unfold vocabulary_of, categories. split.
  - apply NoDup_app.
    + apply NoDup_map_Some, unique_sorted_NoDup.
    + destruct (existsb is_missing col); repeat constructor. simpl. tauto.
    + intros a Ha Hb. apply in_map_iff in Ha. destruct Ha as (s & <- & _).
      destruct (existsb is_missing col); simpl in Hb; intuition discriminate.
  - intros v. rewrite in_app_iff, in_map_iff. split.
    + intros [(s & <- & Hs)|H].
      * now apply present_In, unique_sorted_In.
      * destruct (existsb is_missing col) eqn:E; simpl in H; [|tauto].
        destruct H as [<-|[]]. now apply missing_In.
    + intros H. destruct v as [s|].
      * left. exists s. split; [reflexivity|].
        now apply unique_sorted_In, present_In.
      * right. apply missing_In in H. rewrite H. now left.
Qed.

Lemma one_hot_indicator cats v : indicator_of cats v (one_hot cats v).
Proof.
  unfold indicator_of, one_hot. split; [apply length_map|].
  intros j c Hc. rewrite nth_error_map, Hc. simpl.
  destruct (opt_eqb c v) eqn:E.
  - apply opt_eqb_eq in E. split; [reflexivity | congruence].
  - split; [|reflexivity]. intros ->.
    assert (opt_eqb v v = true) by now apply opt_eqb_eq. congruence.
Qed.

(** C5 (as stated) fails: [C0001] bought a book, yet its row has 0 in
    the dimension of the value [Books]; its only 1 among the category
    dimensions is at the joined string [Books,Electronics]. *)
Lemma C5_joined_string_counterexample :
  customer_profiles transactions3 products2 customers3 = Ok profiles2
  /\ In (Some "Books")
       (map m_Category (group "C0001" (merged_data transactions3 products2)))
  /\ categories (Region_column profiles2) = [Some "Asia"; Some "Europe"]
  /\ categories (Category_column profiles2)
     = [Some "Books"; Some "Books,Electronics"]
  /\ nth_error (categorical_block profiles2) 0 = Some [1; 0; 0; 1].
Proof.
  split; [reflexivity|]. split; [simpl; auto|].
  repeat split; reflexivity.
Qed.
End Encoding.

(** * Task 3: the cluster count check and the labels *)

Section Segmentation.
Import Pandas Sklearn Clustering Props Examples.

Lemma nearest_from_range x cs j label d :
  nearest_from x cs j label d = label
  \/ (j <= nearest_from x cs j label d < j + List.length cs)%nat.
Proof.
  revert j label d. induction cs as [|c cs IH]; simpl; intros j label d;
    [now left|].
  destruct (Qlt_bool (sq_dist x c) d).
  - right. destruct (IH (S j) j (sq_dist x c)) as [E|E]; lia.
  - destruct (IH (S j) label d) as [E|E]; [now left | right; lia].
Qed.

(** A label is the position of one of the centres. *)
Lemma nearest_lt centers x :
  centers <> [] -> (nearest centers x < List.length centers)%nat.
Proof.
  destruct centers as [|c cs]; [congruence|]. intros _. simpl.
  destruct (nearest_from_range x cs 1 0 (sq_dist x c)) as [E|E]; lia.
Qed.

Lemma customer_profiles_ids_NoDup ts cs :
  NoDup (map CustomerID (customer_profiles ts cs)).
Proof.
  unfold customer_profiles. rewrite map_map. simpl. rewrite map_id.
  apply unique_sorted_NoDup.
Qed.

(** C4 (as amended): [fit_predict] refuses the input, whatever the centre
    computation would give, exactly when [n_clusters] is below 1 (an
    invalid parameter) or exceeds the number of samples ([ValueError]);
    it accepts every count from 1 up to the number of samples, both ends
    included.  For the script's four clusters: [ValueError] exactly when
    fewer than four customers have a profile. *)
Theorem C4_cluster_count_check cluster_centers km X :
  (fit_predict cluster_centers km X = Raise InvalidParameterError
   <-> (n_clusters km < 1)%Z)
  /\ (fit_predict cluster_centers km X = Raise ValueError
      <-> (1 <= n_clusters km)%Z
          /\ (Z.of_nat (List.length X) < n_clusters km)%Z)
  /\ ((exists labels, fit_predict cluster_centers km X = Ok labels)
      <-> (1 <= n_clusters km <= Z.of_nat (List.length X))%Z)
  /\ (fit_predict cluster_centers kmeans X = Raise ValueError
      <-> (List.length X < 4)%nat).
Proof.
  assert (G : forall km',
    (fit_predict cluster_centers km' X = Raise InvalidParameterError
     <-> (n_clusters km' < 1)%Z)
    /\ (fit_predict cluster_centers km' X = Raise ValueError
        <-> (1 <= n_clusters km')%Z
            /\ (Z.of_nat (List.length X) < n_clusters km')%Z)
    /\ ((exists labels, fit_predict cluster_centers km' X = Ok labels)
        <-> (1 <= n_clusters km' <= Z.of_nat (List.length X))%Z)).
  { intros km'. unfold fit_predict, check_params_vs_input.
    destruct (Z.ltb_spec (n_clusters km') 1);
      [|destruct (Z.ltb_spec (Z.of_nat (List.length X)) (n_clusters km'))];
      simpl; repeat split; intros; try discriminate; try lia; eauto;
      try (destruct H1 as (? & ?); discriminate);
      try (destruct H0 as (? & ?); discriminate). }
  destruct (G km) as (G1 & G2 & G3).
  repeat (split; [assumption|]).
  destruct (G kmeans) as (_ & K2 & _). rewrite K2. simpl. lia.
Qed.

(** C4 (as stated) fails: with as many samples as clusters the bound
    [K < number of customers] is violated, yet no centre computation
    makes the call raise. *)
Lemma C4_equal_count_counterexample :
  ~ (1 < n_clusters kmeans < Z.of_nat (List.length corners4))%Z
  /\ fit_predict first_samples kmeans corners4
     = Ok [0%nat; 1%nat; 2%nat; 3%nat]
  /\ ~ exists cluster_centers e,
         fit_predict cluster_centers kmeans corners4 = Raise e.
Proof.
  split; [simpl; lia|]. split; [reflexivity|].
  intros (cc & e & H). discriminate.
Qed.

(** C8 (as amended): when at least as many customers have a profile as
    there are clusters, the script assigns every profiled customer, each
    of them once, a cluster index below the number of clusters. *)
Theorem C8_every_customer_labelled cluster_centers fit_transform ts cs :
  (forall rows, List.length (fit_transform rows) = List.length rows) ->
  List.length
    (cluster_centers kmeans
       (fit_transform
          (map (fun p => (Quantity p, TotalValue p)) (customer_profiles ts cs))))
    = Z.to_nat (n_clusters kmeans) ->
  (Z.to_nat (n_clusters kmeans) <= List.length (customer_profiles ts cs))%nat ->
  exists assignment,
    cluster_assignment cluster_centers fit_transform (customer_profiles ts cs)
      = Ok assignment
    /\ map fst assignment = map CustomerID (customer_profiles ts cs)
    /\ NoDup (map fst assignment)
    /\ Forall (fun a => (Z.of_nat (snd a) < n_clusters kmeans)%Z) assignment.
Proof.
  intros Hft Hcc Hn. unfold cluster_assignment.
  set (profiles := customer_profiles ts cs) in *.
  set (X := fit_transform _) in *.
  assert (HX : List.length X = List.length profiles)
    by (unfold X; now rewrite Hft, length_map).
  unfold fit_predict, check_params_vs_input.
  change (n_clusters kmeans) with 4%Z in *.
  destruct (Z.ltb_spec 4 1); [lia|].
  destruct (Z.ltb_spec (Z.of_nat (List.length X)) 4); [lia|]. simpl.
  eexists. split; [reflexivity|].
  assert (Hfst : map fst (combine (map CustomerID profiles)
                            (map (nearest (cluster_centers kmeans X)) X))
                 = map CustomerID profiles).
  { clear -HX. revert HX. generalize (nearest (cluster_centers kmeans X)).
    generalize X. clear. induction profiles as [|p ps IH]; intros [|x X] f H;
      simpl in *; try reflexivity; try discriminate.
    f_equal. apply IH. congruence. }
  split; [exact Hfst|]. split.
  - rewrite Hfst. apply customer_profiles_ids_NoDup.
  - apply Forall_forall. intros [c l] Hin. simpl.
    apply in_combine_r, in_map_iff in Hin. destruct Hin as (x & <- & _).
    assert (Hlt : (nearest (cluster_centers kmeans X) x
                   < List.length (cluster_centers kmeans X))%nat).
    { apply nearest_lt. intros E. rewrite E in Hcc. simpl in Hcc. lia. }
    rewrite Hcc in Hlt. lia.
Qed.

Lemma C8_every_customer_labelled_witness :
  exists assignment,
    cluster_assignment first_samples plain_scale
      (customer_profiles transactions4 customers3)
      = Ok assignment
    /\ map fst assignment
       = map CustomerID (customer_profiles transactions4 customers3)
    /\ NoDup (map fst assignment)
    /\ Forall (fun a => (Z.of_nat (snd a) < n_clusters kmeans)%Z) assignment.
Proof.
  apply (C8_every_customer_labelled first_samples plain_scale
           transactions4 customers3).
  - intros rows. apply length_map.
  - reflexivity.
  - vm_compute. lia.
Defined.

(** C8 (as stated) fails: when the four scaled samples coincide, every
    sample gets the label of the same nearest centre, whichever four
    centres the fit ends with, and the other indices have no member. *)
Lemma C8_empty_cluster_counterexample :
  fit_predict first_samples kmeans same4 = Ok [0%nat; 0%nat; 0%nat; 0%nat]
  /\ ~ exists cluster_centers labels,
         fit_predict cluster_centers kmeans same4 = Ok labels
         /\ forall k, (k < 4)%nat -> In k labels.
Proof.
  split; [reflexivity|].
  intros (cc & labels & H & Hall).
  unfold fit_predict in H. simpl in H. inversion H; subst labels. clear H.
  pose proof (Hall 0%nat ltac:(lia)) as H0.
  pose proof (Hall 1%nat ltac:(lia)) as H1.
  simpl in H0, H1. intuition congruence.
Qed.
End Segmentation.

(** * Task 2: when the query customer is listed *)

Section SelfListing.
Import Numpy Lookalike Props Examples.

Lemma enumerate_In {A} (a : list A) j v :
  nth_error a j = Some v -> In (j, v) (enumerate a).
Proof.
  unfold enumerate. intros H.
  assert (G : forall (l : list A) s j v,
             nth_error l j = Some v ->
             In ((s + j)%nat, v) (combine (seq s (List.length l)) l)).
  { clear. induction l as [|x l IH]; intros s [|j] v H; simpl in *;
      try discriminate.
    - inversion H; subst. left. f_equal. lia.
    - right. replace (s + S j)%nat with (S s + j)%nat by lia. now apply IH. }
  exact (G a 0%nat j v H).
Qed.

(** The identifier at a position determines the position when identifiers
    are distinct. *)
Lemma position_of_id (ids : list string) i j cid :
  NoDup ids -> nth_error ids i = Some cid -> (j < List.length ids)%nat ->
  nth j ids "" = cid -> j = i.
Proof.
  intros Hnd Hi Hj E.
  assert (Hi' : (i < List.length ids)%nat)
    by (apply nth_error_Some; congruence).
  apply (proj1 (NoDup_nth ids "") Hnd); auto.
  rewrite E. symmetry. now apply nth_error_nth.
Qed.

(** X11: with no more than [top_n] profile rows the query customer itself
    is among the returned pairs: it is not removed, only scored [-1]. *)
Lemma self_listed_when_few_profiles cid ids top_n m :
  In cid ids -> square_over ids m ->
  (1 <= top_n)%Z -> (Z.of_nat (List.length ids) <= top_n)%Z ->
  exists res,
    snd (get_top_lookalikes cid ids top_n m) = Ok res
    /\ In (cid, -1) res.
Proof.
  intros Hin Hsq Hn Hfew.
  destruct (get_top_lookalikes_run cid ids top_n m Hin Hsq)
    as (i & row & _ & Hid & _ & Hlen & E).
  assert (Hi : (i < List.length row)%nat)
    by (rewrite Hlen; apply nth_error_Some; congruence).
  rewrite E. eexists. split; [reflexivity|].
  apply in_map_iff. exists (i, -1). split.
  - simpl. f_equal. now apply nth_error_nth.
  - unfold ranked, reversed. apply -> in_rev.
    rewrite slice_from_last_all.
    + eapply Permutation_in; [symmetry; apply isort_perm|].
      apply enumerate_In. now apply updated_nth_same.
    + exact Hn.
    + rewrite isort_length, enumerate_length, updated_length by exact Hi. lia.
Qed.

(** The first entry of the ascending order is the overwritten diagonal
    entry when every other score of the row is above [-1]. *)
Lemma sorted_head_is_self row i :
  (i < List.length row)%nat ->
  (forall j v, j <> i -> nth_error row j = Some v -> -1 < v) ->
  exists tl, isort Qle_bool (enumerate (updated row i (-1))) = (i, -1) :: tl.
Proof.
  intros Hi Hothers.
  set (row' := updated row i (-1)).
  pose proof (isort_sorted Q Qle_bool Qle_bool_total Qle_bool_trans
                (enumerate row')) as Hs.
  pose proof (isort_perm Q Qle_bool (enumerate row')) as Hp.
  assert (Hself : In (i, -1) (isort Qle_bool (enumerate row'))).
  { eapply Permutation_in; [symmetry; exact Hp|].
    apply enumerate_In. unfold row'. now apply updated_nth_same. }
  destruct (isort Qle_bool (enumerate row')) as [|[j v] tl] eqn:E;
    [destruct Hself|].
  exists tl. f_equal.
  assert (Hjv : nth_error row' j = Some v).
  { apply enumerate_nth. eapply Permutation_in; [exact Hp|]. now left. }
  destruct (Nat.eq_dec j i) as [->|Hne].
  - unfold row' in Hjv. rewrite updated_nth_same in Hjv by exact Hi.
    congruence.
  - exfalso. unfold row' in Hjv.
    rewrite updated_nth_other in Hjv by (auto; lia).
    apply Hothers in Hjv; [|exact Hne].
    destruct Hself as [Heq|Htl]; [congruence|].
    inversion Hs as [|? ? _ Hall]; subst.
    rewrite Forall_forall in Hall. specialize (Hall _ Htl).
    unfold key_le in Hall. simpl in Hall. apply Qle_bool_iff in Hall.
    apply (Qlt_irrefl v). eapply Qle_lt_trans; eauto.
Qed.

(** X12: with more than [top_n] profile rows and every other score of the
    row above [-1], the query customer is not among the returned pairs. *)
Lemma self_excluded_when_enough_others cid ids top_n m i row :
  NoDup ids -> square_over ids m ->
  nth_error ids i = Some cid -> nth_error m i = Some row ->
  (1 <= top_n < Z.of_nat (List.length ids))%Z ->
  (forall j v, j <> i -> nth_error row j = Some v -> -1 < v) ->
  exists res,
    snd (get_top_lookalikes cid ids top_n m) = Ok res
    /\ ~ In cid (map fst res).
Proof.
  intros Hnd Hsq Hid Hrow Hn Hothers.
  assert (Hin : In cid ids) by (eapply nth_error_In; eauto).
  destruct (get_top_lookalikes_run cid ids top_n m Hin Hsq)
    as (i' & row' & _ & Hid' & Hrow' & Hlen & E).
  assert (i' = i).
  { assert (Hb : (i' < List.length ids)%nat)
      by (apply nth_error_Some; congruence).
    eapply position_of_id; eauto. now apply nth_error_nth. }
  subst i'. assert (row' = row) by congruence. subst row'.
  assert (Hi : (i < List.length row)%nat)
    by (rewrite Hlen; apply nth_error_Some; congruence).
  rewrite E. eexists. split; [reflexivity|].
  rewrite map_map. simpl. rewrite in_map_iff. intros ([j v] & Ej & Hj).
  simpl in Ej.
  assert (Hjpos : In j (map fst (ranked top_n (updated row i (-1)))))
    by (apply in_map_iff; exists (j, v); auto).
  assert (Hjb : (j < List.length ids)%nat).
  { apply ranked_positions_bound in Hjpos.
    rewrite updated_length in Hjpos by exact Hi. lia. }
  assert (j = i) by (eapply position_of_id; eauto). subst j.
  rewrite ranked_positions in Hjpos. apply in_rev in Hjpos.
  destruct (sorted_head_is_self row i Hi Hothers) as (tl & Es).
  pose proof (sorted_positions (updated row i (-1))) as Hperm.
  assert (Hndp : NoDup (map fst (isort Qle_bool (enumerate (updated row i (-1)))))).
  { eapply Permutation_NoDup; [symmetry; exact Hperm | apply seq_NoDup]. }
  assert (Hl : List.length (map fst (isort Qle_bool (enumerate (updated row i (-1)))))
               = List.length ids).
  { rewrite length_map, isort_length, enumerate_length, updated_length; lia. }
  rewrite Es in Hndp, Hjpos, Hl. simpl in Hndp, Hjpos, Hl.
  unfold slice_from in Hjpos.
  destruct (Z.ltb_spec (- top_n) 0); [|lia].
  simpl List.length in Hjpos.
  replace (Z.to_nat (Z.max 0 (Z.of_nat (S (List.length (map fst tl))) + - top_n)))
    with (S (Z.to_nat (Z.of_nat (List.length ids) - top_n - 1))) in Hjpos
    by (simpl in Hl; lia).
  simpl in Hjpos.
  inversion Hndp as [|? ? Hnotin _]; subst.
  apply Hnotin.
  rewrite <- (firstn_skipn (Z.to_nat (Z.of_nat (List.length ids) - top_n - 1))
                (map fst tl)).
  apply in_or_app. now right.
Qed.
End SelfListing.

(** * Task 2: fewer other customers than requested *)

Section FewOthers.
Import Numpy Lookalike Props Examples.

(** C6: for a positive [top_n] and fewer than [top_n] other customers the
    call does not return the other customers alone: it returns one pair
    per profile row, every identifier once, and the query customer's own
    pair, with the score [-1] written over its self-similarity, is one of
    them. *)
Theorem C6_query_customer_returned_with_few_others cid ids top_n m :
  In cid ids -> NoDup ids -> square_over ids m ->
  (1 <= top_n)%Z -> (Z.of_nat (List.length ids) - 1 < top_n)%Z ->
  exists res,
    snd (get_top_lookalikes cid ids top_n m) = Ok res
    /\ List.length res = List.length ids
    /\ NoDup (map fst res)
    /\ (forall c, In c ids -> In c (map fst res))
    /\ In (cid, -1) res.
Proof.
  intros Hin Hnd Hsq Hn Hfew.
  destruct (get_top_lookalikes_run cid ids top_n m Hin Hsq)
    as (i & row & _ & Hid & _ & Hlen & E).
  assert (Hi : (i < List.length row)%nat)
    by (rewrite Hlen; apply nth_error_Some; congruence).
  set (row' := updated row i (-1)) in *.
  assert (Hlen' : List.length row' = List.length ids)
    by (unfold row'; rewrite updated_length; lia).
  rewrite E. eexists. split; [reflexivity|].
  split; [|split; [|split]].
  - rewrite length_map, ranked_length, Hlen' by exact Hn. lia.
  - rewrite map_map. cbn [fst].
    rewrite <- (map_map fst (fun j => nth j ids "")).
    apply NoDup_map_nth; [exact Hnd | apply ranked_positions_NoDup |].
    intros j Hj. rewrite <- Hlen'. eapply ranked_positions_bound; eauto.
  - intros c Hc. rewrite map_map. cbn [fst].
    rewrite <- (map_map fst (fun j => nth j ids "")).
    destruct (In_nth ids c "" Hc) as (j & Hj & Ej).
    apply in_map_iff. exists j. split; [exact Ej|].
    apply ranked_all; [exact Hn | lia | lia].
  - apply in_map_iff. exists (i, -1). split.
    + cbn [fst snd]. f_equal. now apply nth_error_nth.
    + unfold ranked, reversed. apply -> in_rev.
      rewrite slice_from_last_all.
      * eapply Permutation_in; [symmetry; apply isort_perm|].
        apply enumerate_In. now apply updated_nth_same.
      * exact Hn.
      * rewrite isort_length, enumerate_length. lia.
Qed.

Lemma C6_query_customer_returned_with_few_others_witness :
  exists res,
    snd (get_top_lookalikes "C0001" ids3 default_top_n sim3) = Ok res
    /\ List.length res = List.length ids3
    /\ NoDup (map fst res)
    /\ (forall c, In c ids3 -> In c (map fst res))
    /\ In ("C0001", -1) res.
Proof.
  apply (C6_query_customer_returned_with_few_others "C0001" ids3
           default_top_n sim3).
  - simpl. auto.
  - repeat constructor; simpl; intuition discriminate.
  - unfold square_over. split; [reflexivity | repeat constructor].
  - unfold default_top_n. lia.
  - unfold default_top_n. simpl. lia.
Defined.
End FewOthers.


(** * Task 2: queries after a query *)

Section LaterQueries.
Import Numpy Lookalike Props.

Lemma updated_idem {A} (a : list A) i v :
  (i < List.length a)%nat -> updated (updated a i v) i v = updated a i v.
Proof.
  intros Hi. apply nth_error_ext. intros n.
  assert (Hi' : (i < List.length (updated a i v))%nat)
    by now rewrite updated_length.
  destruct (Nat.eq_dec i n) as [<-|Hne].
  - now rewrite !updated_nth_same.
  - now rewrite updated_nth_other.
Qed.

Lemma square_over_updated ids m i row :
  square_over ids m -> (i < List.length m)%nat ->
  List.length row = List.length ids ->
  square_over ids (updated m i row).
Proof.
  intros [Hlen Hrows] Hi Hrow. split.
  - now rewrite updated_length.
  - unfold updated. apply Forall_app. split; [|constructor; [exact Hrow|]].
    + rewrite <- (firstn_skipn i m) in Hrows.
      now apply Forall_app in Hrows.
    + rewrite <- (firstn_skipn (S i) m) in Hrows.
      now apply Forall_app in Hrows.
Qed.

(** X13: the write a query leaves in the matrix does not change what any
    later query returns: another customer's row holds no overwritten entry,
    and the same customer's row already has [-1] where it is written
    again. *)
Lemma later_query_unaffected c1 c2 ids n1 n2 m :
  In c1 ids -> In c2 ids -> square_over ids m ->
  snd (get_top_lookalikes c2 ids n2 (fst (get_top_lookalikes c1 ids n1 m)))
  = snd (get_top_lookalikes c2 ids n2 m).
Proof.
  intros H1 H2 Hsq.
  destruct (get_top_lookalikes_run c1 ids n1 m H1 Hsq)
    as (i & row & _ & Hid & Hrow & Hlen & E1).
  destruct (get_top_lookalikes_run c2 ids n2 m H2 Hsq)
    as (j & row2 & Hj & _ & Hrow2 & Hlen2 & E2).
  assert (Hi : (i < List.length row)%nat)
    by (rewrite Hlen; apply nth_error_Some; congruence).
  assert (Him : (i < List.length m)%nat)
    by (apply nth_error_Some; congruence).
  rewrite E1, E2. simpl.
  assert (Hsq' : square_over ids (updated m i (updated row i (-1)))).
  { apply square_over_updated; auto. rewrite updated_length; auto. }
  destruct (get_top_lookalikes_run c2 ids n2 _ H2 Hsq')
    as (j' & row3 & Hj' & _ & Hrow3 & _ & E3).
  assert (j' = j) by congruence. subst j'.
  rewrite E3. simpl. do 3 f_equal.
  destruct (Nat.eq_dec i j) as [->|Hne].
  - rewrite updated_nth_same in Hrow3 by exact Him.
    assert (row2 = row) by congruence. subst row2.
    inversion Hrow3; subst row3. now apply updated_idem.
  - rewrite updated_nth_other in Hrow3 by auto. congruence.
Qed.
End LaterQueries.


(** * Task 2: what the aggregation returns *)

Section AggregationFacts.
Import Pandas Aggregator Props Views Examples.

Lemma rmap_all_ok {A B} (f : A -> result B) (l : list A) :
  (forall x, In x l -> exists y, f x = Ok y) -> exists l', rmap f l = Ok l'.
Proof.
  induction l as [|x l IH]; intros H; simpl; [eauto|].
  destruct (H x) as (y & ->); [now left|]. simpl.
  destruct IH as (l' & ->); [intros z Hz; apply H; now right|]. simpl. eauto.
Qed.

Lemma join_categories_raises x e :
  join_categories x = Raise e -> In None x.
Proof.
  unfold join_categories.
  destruct (rmap _ x) as [l|e'] eqn:E; simpl; [discriminate|]. intros _.
  apply rmap_raises in E. destruct E as ([s|] & Hin & Hs); [discriminate|].
  exact Hin.
Qed.

Lemma join_categories_ok x :
  ~ In None x -> exists s, join_categories x = Ok s.
Proof.
  intros H. unfold join_categories.
  destruct (rmap_all_ok
              (fun c : option string =>
                 match c with Some s => Ok s | None => Raise TypeError end) x)
    as (l & ->); [|simpl; eauto].
  intros [s|] Hin; [eauto | contradiction].
Qed.

Lemma matching_product ps pid :
  filter (fun p => String.eqb (p_ProductID p) pid) ps = [] ->
  ~ In pid (map p_ProductID ps).
Proof.
  induction ps as [|p ps IH]; simpl; intros H; [tauto|].
  destruct (String.eqb_spec (p_ProductID p) pid) as [E|E]; [discriminate|].
  intros [Hp|Hp]; [congruence | now apply IH].
Qed.

(** A joined row without category comes from a transaction whose product is
    not in the product table. *)
Lemma missing_category_row ts ps r :
  In r (merged_data ts ps) -> m_Category r = None ->
  exists t, In t ts /\ ~ In (t_ProductID t) (map p_ProductID ps).
Proof.
  unfold merged_data. rewrite in_flat_map. intros (t & Ht & Hr) Hc.
  exists t. split; [exact Ht|].
  destruct (filter _ ps) as [|p ps'] eqn:E.
  - now apply matching_product.
  - apply in_map_iff in Hr. destruct Hr as (p' & <- & _). discriminate.
Qed.

Lemma customer_profiles_raises ts ps cs e :
  customer_profiles ts ps cs = Raise e ->
  e = TypeError
  /\ exists t, In t ts /\ ~ In (t_ProductID t) (map p_ProductID ps).
Proof.
  unfold customer_profiles, groupby_agg.
  destruct (rmap _ _) as [aggs|e'] eqn:E; simpl; [discriminate|].
  intros H. inversion H; subst e'. clear H.
  apply rmap_raises in E. destruct E as (k & _ & Hk).
  split; [eapply agg_group_raises; eauto|].
  unfold agg_group in Hk.
  destruct (join_categories _) as [s|e'] eqn:Ej; simpl in Hk; [discriminate|].
  apply join_categories_raises in Ej. apply in_map_iff in Ej.
  destruct Ej as (r & Hc & Hr). apply filter_In in Hr.
  eapply missing_category_row; [apply Hr | exact Hc].
Qed.

(** X1: the aggregation fails exactly when some transaction names a
    product that is not in the product table, and then with [TypeError];
    it returns the profile table exactly when every transaction's product
    is known. *)
Theorem X1_aggregation_fails_iff_unknown_product ts ps cs :
  (customer_profiles ts ps cs = Raise TypeError
   <-> exists t, In t ts /\ ~ In (t_ProductID t) (map p_ProductID ps))
  /\ ((exists profiles, customer_profiles ts ps cs = Ok profiles)
      <-> forall t, In t ts -> In (t_ProductID t) (map p_ProductID ps))
  /\ (forall e, customer_profiles ts ps cs = Raise e -> e = TypeError).
Proof.
  split; [|split].
  - split.
    + intros H. now apply customer_profiles_raises in H.
    + intros (t & Ht & Hp). eapply unknown_product_raises; eauto.
  - split.
    + intros (profiles & H) t Ht.
      destruct (in_dec string_dec (t_ProductID t) (map p_ProductID ps))
        as [Hin|Hn]; [exact Hin|].
      rewrite (unknown_product_raises t ts ps cs Ht Hn) in H. discriminate.
    + intros Hall.
      destruct (customer_profiles ts ps cs) as [profiles|e] eqn:E; [eauto|].
      apply customer_profiles_raises in E. destruct E as (_ & t & Ht & Hn).
      exfalso. apply Hn. now apply Hall.
  - intros e H. now apply customer_profiles_raises in H.
Qed.
End AggregationFacts.

(** * The order of identifiers *)

Section StringOrder.
Import Pandas Views.

Lemma compare_same a b : String.compare a b = String_as_OT.compare a b.
Proof.
  revert b. induction a as [|x a IH]; intros [|y b]; simpl; auto.
Qed.

Lemma ltb_trans a b c :
  String.ltb a b = true -> String.ltb b c = true -> String.ltb a c = true.
Proof.
  unfold String.ltb.
  rewrite (compare_same a b), (compare_same b c), (compare_same a c).
  intros H1 H2.
  destruct (String_as_OT.compare a b) eqn:E1; try discriminate.
  destruct (String_as_OT.compare b c) eqn:E2; try discriminate.
  assert (H : String_as_OT.lt a c).
  { apply (@RelationClasses.StrictOrder_Transitive _ _
             String_as_OT.lt_strorder a b c); [exact E1 | exact E2]. }
  unfold String_as_OT.lt in H. now rewrite H.
Qed.

Lemma leb_cases a b : String.leb a b = true <-> a = b \/ String.ltb a b = true.
Proof.
  unfold String.leb, String.ltb. split.
  - destruct (String.compare a b) eqn:E; intros H; try discriminate; auto.
    left. now apply String.compare_eq_iff.
  - intros [->|H].
    + destruct (String.compare b b) eqn:E; auto.
      pose proof (String.compare_antisym b b) as Ha. rewrite E in Ha.
      discriminate.
    + destruct (String.compare a b); auto; discriminate.
Qed.

Lemma leb_trans a b c :
  String.leb a b = true -> String.leb b c = true -> String.leb a c = true.
Proof.
  rewrite !leb_cases. intros [->|H1] [->|H2]; auto.
  right. eapply ltb_trans; eauto.
Qed.

Lemma ltb_irrefl a : String.ltb a a = false.
Proof.
  unfold String.ltb. destruct (String.compare a a) eqn:E; auto.
  pose proof (String.compare_antisym a a) as Ha. rewrite E in Ha.
  discriminate.
Qed.

Lemma insert_str_sorted k l :
  StronglySorted (fun a b => String.leb a b = true) l ->
  StronglySorted (fun a b => String.leb a b = true) (insert_str k l).
Proof.
  induction 1 as [|x l Hs IH Hall]; simpl.
  - repeat constructor.
  - destruct (String.leb k x) eqn:E.
    + constructor; [now constructor|]. constructor; [exact E|].
      eapply Forall_impl; [|exact Hall]. intros z Hz. eapply leb_trans; eauto.
    + constructor; [exact IH|].
      apply Forall_forall. intros z Hz. apply insert_str_In in Hz.
      destruct Hz as [->|Hz].
      * destruct (String.leb_total x k); congruence.
      * rewrite Forall_forall in Hall. auto.
Qed.

Lemma sorted_strings_sorted l :
  StronglySorted (fun a b => String.leb a b = true) (sorted_strings l).
Proof.
  induction l; simpl; [constructor | now apply insert_str_sorted].
Qed.

Lemma nodup_sorted (R : string -> string -> Prop) l :
  StronglySorted R l -> StronglySorted R (nodup string_dec l).
Proof.
  induction 1 as [|x l Hs IH Hall]; simpl; [constructor|].
  destruct (in_dec string_dec x l); [exact IH|].
  constructor; [exact IH|].
  apply Forall_forall. intros z Hz. apply nodup_In in Hz.
  rewrite Forall_forall in Hall. auto.
Qed.

(** Group keys come out in strictly ascending order. *)
Lemma unique_sorted_ascending l : strictly_ascending (unique_sorted l).
Proof.
  unfold strictly_ascending, unique_sorted.
  pose proof (nodup_sorted _ _ (sorted_strings_sorted l)) as Hs.
  pose proof (NoDup_nodup string_dec (sorted_strings l)) as Hn.
  induction Hs as [|x l' Hs IH Hall]; [constructor|].
  inversion Hn as [|? ? Hnotin Hn']; subst.
  constructor; [now apply IH|].
  apply Forall_forall. intros z Hz.
  rewrite Forall_forall in Hall. specialize (Hall z Hz).
  apply leb_cases in Hall. destruct Hall as [->|Hlt]; [contradiction|exact Hlt].
Qed.
End StringOrder.

(** * Task 2: one profile per customer *)

Section ProfileRows.
Import Pandas Aggregator Props Views Examples.

Lemma unique_key_matches {A} (key : A -> string) (l : list A) k :
  NoDup (map key l) ->
  filter (fun x => String.eqb (key x) k) l = []
  \/ exists x, filter (fun x => String.eqb (key x) k) l = [x].
Proof.
  induction l as [|y l IH]; simpl; intros Hnd; [now left|].
  inversion Hnd as [|? ? Hnotin Hnd']; subst.
  destruct (String.eqb_spec (key y) k) as [E|E]; [|now apply IH].
  right. exists y. f_equal.
  destruct (filter (fun x => String.eqb (key x) k) l) as [|z zs] eqn:F;
    [reflexivity|].
  exfalso. apply Hnotin.
  assert (Hz : In z (filter (fun x => String.eqb (key x) k) l))
    by (rewrite F; now left).
  apply filter_In in Hz. destruct Hz as [Hz Hk].
  apply String.eqb_eq in Hk. rewrite E, <- Hk. now apply in_map.
Qed.

Lemma merge_customers_unique aggs cs :
  NoDup (map c_CustomerID cs) ->
  map CustomerID (merge_customers aggs cs) = map a_CustomerID aggs.
Proof.
  intros Hnd. unfold merge_customers.
  induction aggs as [|a aggs IH]; [reflexivity|].
  cbn [flat_map]. rewrite map_app, IH. cbn [map].
  destruct (unique_key_matches c_CustomerID cs (a_CustomerID a) Hnd)
    as [->|(c & ->)]; reflexivity.
Qed.

Lemma merged_data_customers ts ps c :
  In c (map m_CustomerID (merged_data ts ps)) <-> In c (map t_CustomerID ts).
Proof.
  split.
  - rewrite in_map_iff. intros (r & <- & Hr).
    apply merged_data_customer in Hr. destruct Hr as (t & Ht & ->).
    now apply in_map.
  - rewrite in_map_iff. intros (t & <- & Ht).
    apply in_map_iff.
    destruct (filter (fun p => String.eqb (p_ProductID p) (t_ProductID t)) ps)
      as [|p ps'] eqn:E.
    + exists (merged_row t None). split; [reflexivity|].
      unfold merged_data. apply in_flat_map. exists t. rewrite E.
      split; [exact Ht | now left].
    + exists (merged_row t (Some (p_Category p))). split; [reflexivity|].
      unfold merged_data. apply in_flat_map. exists t. rewrite E.
      split; [exact Ht | now left].
Qed.

(** X2: when customer identifiers are unique in the customer table, the
    profile table has exactly one row per customer that occurs in a
    transaction, and its rows are in strictly ascending order of
    identifier. *)
Theorem X2_one_profile_per_transaction_customer ts ps cs profiles :
  NoDup (map c_CustomerID cs) ->
  customer_profiles ts ps cs = Ok profiles ->
  NoDup (map CustomerID profiles)
  /\ (forall c, In c (map CustomerID profiles) <-> In c (map t_CustomerID ts))
  /\ strictly_ascending (map CustomerID profiles).
Proof.
  intros Hnd H. unfold customer_profiles in H.
  destruct (groupby_agg (merged_data ts ps)) as [aggs|e] eqn:Eg;
    simpl in H; [|discriminate].
  inversion H; subst profiles. clear H.
  rewrite (merge_customers_unique aggs cs Hnd), (groupby_agg_keys _ _ Eg).
  split; [apply unique_sorted_NoDup|]. split.
  - intros c. rewrite unique_sorted_In. apply merged_data_customers.
  - apply unique_sorted_ascending.
Qed.

Lemma X2_one_profile_per_transaction_customer_witness :
  NoDup (map CustomerID profiles2)
  /\ (forall c, In c (map CustomerID profiles2)
                <-> In c (map t_CustomerID transactions3))
  /\ strictly_ascending (map CustomerID profiles2).
Proof.
  apply (X2_one_profile_per_transaction_customer
           transactions3 products2 customers3 profiles2).
  - repeat constructor; simpl; intuition discriminate.
  - reflexivity.
Defined.
End ProfileRows.

(** * Task 2: the totals and the region of a profile *)

Section ProfileTotals.
Import Pandas Aggregator Props Views Examples.

(** With unique product identifiers the join yields one row per
    transaction, so a column of a group is that column of the customer's
    transactions. *)
Lemma group_column {B} (g : MergedRow -> B) (f : Transaction -> B) ts ps k :
  (forall t c, g (merged_row t c) = f t) ->
  NoDup (map p_ProductID ps) ->
  map g (group k (merged_data ts ps)) = map f (transactions_of k ts).
Proof.
  intros Hgf Hnd. unfold group, merged_data, transactions_of.
  induction ts as [|t ts IH]; [reflexivity|].
  cbn [flat_map]. rewrite filter_app, map_app, IH. cbn [filter].
  destruct (unique_key_matches p_ProductID ps (t_ProductID t) Hnd)
    as [->|(p & ->)]; cbn [map filter merged_row m_CustomerID];
    destruct (String.eqb (t_CustomerID t) k); cbn [map app];
    now rewrite ?Hgf.
Qed.

Lemma merged_column {B} (g : MergedRow -> B) (f : Transaction -> B) ts ps :
  (forall t c, g (merged_row t c) = f t) ->
  NoDup (map p_ProductID ps) ->
  map g (merged_data ts ps) = map f ts.
Proof.
  intros Hgf Hnd. unfold merged_data.
  induction ts as [|t ts IH]; [reflexivity|].
  cbn [flat_map]. rewrite map_app, IH.
  destruct (unique_key_matches p_ProductID ps (t_ProductID t) Hnd)
    as [->|(p & ->)]; cbn [map app]; now rewrite Hgf.
Qed.

Lemma groupby_agg_rows rows aggs a :
  groupby_agg rows = Ok aggs -> In a aggs ->
  In (a_CustomerID a) (unique_sorted (map m_CustomerID rows))
  /\ a_Quantity a = sumZ (map m_Quantity (group (a_CustomerID a) rows))
  /\ a_TotalValue a = sumQ (map m_TotalValue (group (a_CustomerID a) rows)).
Proof.
  unfold groupby_agg. intros H. apply rmap_ok in H.
  induction H as [|k a' ks aggs' Hk _ IH]; intros Hin; [destruct Hin|].
  destruct Hin as [->|Hin].
  - unfold agg_group in Hk.
    destruct (join_categories _); simpl in Hk; [|discriminate].
    inversion Hk; subst. simpl. auto.
  - destruct (IH Hin) as (H1 & H2 & H3). split; [now right | auto].
Qed.

Lemma merge_customers_source aggs cs p :
  In p (merge_customers aggs cs) ->
  exists a, In a aggs
    /\ CustomerID p = a_CustomerID a
    /\ Quantity p = a_Quantity a
    /\ TotalValue p = a_TotalValue a
    /\ (Region p = None
        /\ filter (fun c => String.eqb (c_CustomerID c) (a_CustomerID a)) cs = []
        \/ exists c, In c cs /\ c_CustomerID c = a_CustomerID a
                     /\ Region p = Some (c_Region c)).
Proof.
  unfold merge_customers. rewrite in_flat_map. intros (a & Ha & Hp).
  exists a. split; [exact Ha|].
  destruct (filter _ cs) as [|c cs'] eqn:E.
  - destruct Hp as [<-|[]]. simpl. auto 6.
  - apply in_map_iff in Hp. destruct Hp as (c' & <- & Hc'). simpl.
    repeat (split; [reflexivity|]). right. exists c'.
    rewrite <- E in Hc'. apply filter_In in Hc'. destruct Hc' as [Hc' Hk].
    apply String.eqb_eq in Hk. auto.
Qed.

(** X3: with unique product identifiers, the quantity of a profile is the
    sum of the quantities of that customer's transactions as a signed 64-bit
    integer: the exact sum modulo [2^64], hence the exact sum itself
    whenever that fits 64 bits. *)
Theorem X3_profile_totals_are_customer_sums ts ps cs profiles p :
  NoDup (map p_ProductID ps) ->
  customer_profiles ts ps cs = Ok profiles ->
  In p profiles ->
  Quantity p
  = wrap_int64 (total (map t_Quantity (transactions_of (CustomerID p) ts)))
  /\ (in_int64 (total (map t_Quantity (transactions_of (CustomerID p) ts))) ->
      Quantity p = total (map t_Quantity (transactions_of (CustomerID p) ts))).
Proof.
  intros Hnd H Hp. unfold customer_profiles in H.
  destruct (groupby_agg (merged_data ts ps)) as [aggs|e] eqn:Eg;
    simpl in H; [|discriminate].
  inversion H; subst profiles. clear H.
  apply merge_customers_source in Hp.
  destruct Hp as (a & Ha & -> & -> & _ & _).
  destruct (groupby_agg_rows _ _ _ Eg Ha) as (_ & -> & _).
  rewrite (group_column m_Quantity t_Quantity) by auto.
  rewrite sumZ_total. split; [reflexivity|]. apply wrap_int64_small.
Qed.

Lemma X3_profile_totals_are_customer_sums_witness :
  4%Z = wrap_int64 (total (map t_Quantity (transactions_of "C0001" transactions3)))
  /\ 4%Z = total (map t_Quantity (transactions_of "C0001" transactions3)).
Proof.
  destruct (X3_profile_totals_are_customer_sums transactions3 products2
              customers3 profiles2
              (mkProfile "C0001" 4 12 "Books,Electronics" (Some "Asia")))
    as [H1 H2].
  - repeat constructor; simpl; intuition discriminate.
  - reflexivity.
  - simpl. auto.
  - split; [exact H1|]. apply H2. vm_compute.
    split; [discriminate | reflexivity].
Defined.

Lemma total_single_key (ks : list string) k v :
  NoDup ks -> In k ks ->
  total (map (fun k' => if String.eqb k k' then v else 0%Z) ks) = v.
Proof.
  induction ks as [|x ks IH]; intros Hnd Hin; [destruct Hin|].
  inversion Hnd as [|? ? Hnotin Hnd']; subst.
  cbn [map]. rewrite total_cons.
  destruct (String.eqb_spec k x) as [->|Hne].
  - assert (Z0 : total (map (fun k' => if String.eqb x k' then v else 0%Z) ks) = 0%Z).
    { clear -Hnotin. induction ks as [|y ks IH]; [reflexivity|].
      cbn [map]. rewrite total_cons.
      destruct (String.eqb_spec x y) as [->|Hne]; [simpl in Hnotin; tauto|].
      rewrite IH; [reflexivity|]. simpl in Hnotin. tauto. }
    rewrite Z0. lia.
  - destruct Hin as [->|Hin]; [congruence|]. rewrite IH; auto.
Qed.

Lemma total_group_step {A} (key : A -> string) (g : A -> Z) (ks : list string) r rows :
  total (map (fun k => total (map g (filter (fun x => String.eqb (key x) k) (r :: rows)))) ks)
  = (total (map (fun k => if String.eqb (key r) k then g r else 0%Z) ks)
     + total (map (fun k => total (map g (filter (fun x => String.eqb (key x) k) rows))) ks))%Z.
Proof.
  induction ks as [|k ks IH]; [reflexivity|].
  cbn [map]. rewrite !total_cons, IH. cbn [filter].
  destruct (String.eqb (key r) k); cbn [map]; rewrite ?total_cons; lia.
Qed.

(** Adding a column up group by group gives the sum of the column. *)
Lemma total_by_group {A} (key : A -> string) (g : A -> Z) (ks : list string) rows :
  NoDup ks -> (forall r, In r rows -> In (key r) ks) ->
  total (map (fun k => total (map g (filter (fun r => String.eqb (key r) k) rows))) ks)
  = total (map g rows).
Proof.
  intros Hnd. induction rows as [|r rows IH]; intros Hkeys.
  - simpl. clear. induction ks as [|k ks IHks]; [reflexivity|].
    cbn [map]. rewrite total_cons, IHks. reflexivity.
  - rewrite total_group_step, IH by (intros r' Hr'; apply Hkeys; now right).
    cbn [map]. rewrite total_cons.
    rewrite total_single_key; [reflexivity | exact Hnd | apply Hkeys; now left].
Qed.
End ProfileTotals.

(** * Task 2: conservation of the totals, and the region *)

Section Conservation.
Import Pandas Aggregator Props Views Examples.

Lemma merge_customers_column {B} (g : Profile -> B) (f : Aggregate -> B) aggs cs :
  (forall a r, g (with_region a r) = f a) ->
  NoDup (map c_CustomerID cs) ->
  map g (merge_customers aggs cs) = map f aggs.
Proof.
  intros Hgf Hnd. unfold merge_customers.
  induction aggs as [|a aggs IH]; [reflexivity|].
  cbn [flat_map]. rewrite map_app, IH. cbn [map].
  destruct (unique_key_matches c_CustomerID cs (a_CustomerID a) Hnd)
    as [->|(c & ->)]; cbn [map app]; now rewrite Hgf.
Qed.

Lemma groupby_agg_columns rows aggs :
  groupby_agg rows = Ok aggs ->
  map a_Quantity aggs
  = map (fun k => sumZ (map m_Quantity (group k rows)))
      (unique_sorted (map m_CustomerID rows))
  /\ map a_TotalValue aggs
     = map (fun k => sumQ (map m_TotalValue (group k rows)))
         (unique_sorted (map m_CustomerID rows)).
Proof.
  unfold groupby_agg. intros H. apply rmap_ok in H.
  induction H as [|k a ks aggs' Hk _ [IH1 IH2]]; [split; reflexivity|].
  unfold agg_group in Hk.
  destruct (join_categories _); simpl in Hk; [|discriminate].
  inversion Hk; subst. simpl. now rewrite IH1, IH2.
Qed.

(** X4: with unique product and customer identifiers, and no customer
    whose quantities add up beyond 64 bits, the quantities of the profiles
    add up to the quantities of all transactions: the aggregation neither
    loses nor repeats a transaction. *)
Theorem X4_profile_totals_conserved ts ps cs profiles :
  NoDup (map p_ProductID ps) ->
  NoDup (map c_CustomerID cs) ->
  customer_profiles ts ps cs = Ok profiles ->
  (forall k, In k (map t_CustomerID ts) ->
     in_int64 (total (map t_Quantity (transactions_of k ts)))) ->
  total (map Quantity profiles) = total (map t_Quantity ts).
Proof.
  intros Hp Hc H Hfit. unfold customer_profiles in H.
  destruct (groupby_agg (merged_data ts ps)) as [aggs|e] eqn:Eg;
    simpl in H; [|discriminate].
  inversion H; subst profiles. clear H.
  rewrite (merge_customers_column Quantity a_Quantity aggs cs)
    by (auto; intros; reflexivity).
  destruct (groupby_agg_columns _ _ Eg) as [-> _].
  assert (Hkeys : forall k,
            In k (unique_sorted (map m_CustomerID (merged_data ts ps)))
            <-> In k (map t_CustomerID ts)).
  { intros k. rewrite unique_sorted_In. apply merged_data_customers. }
  rewrite (map_ext_in _
             (fun k => total (map t_Quantity
                                (filter (fun t => String.eqb (t_CustomerID t) k) ts)))).
  - apply (total_by_group t_CustomerID t_Quantity).
    + apply unique_sorted_NoDup.
    + intros t Ht. apply Hkeys. now apply in_map.
  - intros k Hk. rewrite (group_column m_Quantity t_Quantity) by auto.
    rewrite sumZ_total. apply wrap_int64_small. apply Hfit. now apply Hkeys.
Qed.

Lemma X4_profile_totals_conserved_witness :
  total (map Quantity profiles2) = total (map t_Quantity transactions3).
Proof.
  apply (X4_profile_totals_conserved transactions3 products2 customers3 profiles2).
  - repeat constructor; simpl; intuition discriminate.
  - repeat constructor; simpl; intuition discriminate.
  - reflexivity.
  - intros k Hk. simpl in Hk.
    destruct Hk as [<-|[<-|[<-|[]]]]; vm_compute;
      (split; [discriminate | reflexivity]).
Defined.

Lemma no_match_absent cs k :
  filter (fun c => String.eqb (c_CustomerID c) k) cs = [] <->
  ~ In k (map c_CustomerID cs).
Proof.
  induction cs as [|c cs IH]; simpl; [tauto|].
  destruct (String.eqb_spec (c_CustomerID c) k) as [E|E].
  - split; [discriminate | tauto].
  - rewrite IH. tauto.
Qed.

(** X5: the region of a profile is the region of a customer row with the
    same identifier, and it is missing exactly when the customer table has
    no such row; a customer with transactions but no customer row is kept,
    with a missing region. *)
Theorem X5_region_from_customer_table ts ps cs profiles :
  customer_profiles ts ps cs = Ok profiles ->
  (forall p, In p profiles ->
     (Region p = None <-> ~ In (CustomerID p) (map c_CustomerID cs))
     /\ (forall r, Region p = Some r ->
           In (mkCustomer (CustomerID p) r) cs))
  /\ (forall k, In k (map t_CustomerID ts) ->
        ~ In k (map c_CustomerID cs) ->
        exists p, In p profiles /\ CustomerID p = k /\ Region p = None).
Proof.
  intros H. unfold customer_profiles in H.
  destruct (groupby_agg (merged_data ts ps)) as [aggs|e] eqn:Eg;
    simpl in H; [|discriminate].
  inversion H; subst profiles. clear H. split.
  - intros p Hp. apply merge_customers_source in Hp.
    destruct Hp as (a & Ha & Hid & _ & _ & [[Hr Hf]|(c & Hc & Hk & Hr)]).
    + rewrite Hid, Hr. split.
      * split; [intros _; now apply no_match_absent | reflexivity].
      * discriminate.
    + rewrite Hid, Hr. split.
      * split; [discriminate|]. intros Hn. exfalso. apply Hn.
        rewrite <- Hk. now apply in_map.
      * intros r Er. inversion Er; subst r. rewrite <- Hk.
        destruct c; exact Hc.
  - intros k Hk Hn.
    assert (Hkey : In k (map a_CustomerID aggs)).
    { rewrite (groupby_agg_keys _ _ Eg), unique_sorted_In.
      now apply merged_data_customers. }
    apply in_map_iff in Hkey. destruct Hkey as (a & <- & Ha).
    exists (with_region a None). repeat split.
    unfold merge_customers. apply in_flat_map. exists a. split; [exact Ha|].
    apply no_match_absent in Hn. rewrite Hn. now left.
Qed.

Lemma X5_region_from_customer_table_witness :
  (forall p, In p profiles2 ->
     (Region p = None <-> ~ In (CustomerID p) (map c_CustomerID customers3))
     /\ (forall r, Region p = Some r ->
           In (mkCustomer (CustomerID p) r) customers3))
  /\ (forall k, In k (map t_CustomerID transactions3) ->
        ~ In k (map c_CustomerID customers3) ->
        exists p, In p profiles2 /\ CustomerID p = k /\ Region p = None).
Proof.
  apply (X5_region_from_customer_table transactions3 products2 customers3 profiles2).
  reflexivity.
Defined.
End Conservation.

(** * Task 2: the joined category string and its encoding *)

Section EncodedCategories.
Import Pandas Aggregator Encoder Props Views Examples.

Lemma join_categories_present l :
  join_categories (map Some l) = Ok (String.concat "," l).
Proof.
  unfold join_categories.
  assert (E : rmap (fun c : option string =>
                      match c with Some s => Ok s | None => Raise TypeError end)
                (map Some l) = Ok l).
  { induction l as [|s l IH]; [reflexivity|]. cbn [map rmap rbind].
    now rewrite IH. }
  now rewrite E.
Qed.

Lemma groupby_agg_category rows aggs a :
  groupby_agg rows = Ok aggs -> In a aggs ->
  join_categories (map m_Category (group (a_CustomerID a) rows))
  = Ok (a_Category a).
Proof.
  unfold groupby_agg. intros H. apply rmap_ok in H.
  induction H as [|k a' ks aggs' Hk _ IH]; intros Hin; [destruct Hin|].
  destruct Hin as [->|Hin]; [|exact (IH Hin)].
  unfold agg_group in Hk.
  destruct (join_categories (map m_Category (group k rows))) as [cat|e] eqn:E;
    cbn [rbind] in Hk; [|discriminate].
  inversion Hk; subst a. cbn [a_CustomerID a_Category]. exact E.
Qed.

Lemma merge_customers_category aggs cs p :
  In p (merge_customers aggs cs) ->
  exists a, In a aggs
    /\ CustomerID p = a_CustomerID a /\ Category p = a_Category a.
Proof.
  unfold merge_customers. rewrite in_flat_map. intros (a & Ha & Hp).
  exists a. split; [exact Ha|].
  destruct (filter _ cs) as [|c cs'].
  - destruct Hp as [<-|[]]. split; reflexivity.
  - apply in_map_iff in Hp. destruct Hp as (c' & <- & _). split; reflexivity.
Qed.

(** The [Category] of a profile is the join of the category column of the
    customer's group of joined rows. *)
Lemma profile_category ts ps cs profiles p :
  customer_profiles ts ps cs = Ok profiles -> In p profiles ->
  join_categories (map m_Category (group (CustomerID p) (merged_data ts ps)))
  = Ok (Category p).
Proof.
  unfold customer_profiles. intros H Hp.
  destruct (groupby_agg (merged_data ts ps)) as [aggs|e] eqn:Eg;
    cbn [rbind] in H; [|discriminate].
  inversion H; subst profiles. clear H.
  apply merge_customers_category in Hp. destruct Hp as (a & Ha & -> & ->).
  now apply groupby_agg_category with (aggs := aggs).
Qed.

(** A run that returns profiles had a product for every transaction. *)
Lemma products_known_when_ok ts ps cs profiles t :
  customer_profiles ts ps cs = Ok profiles -> In t ts ->
  In (t_ProductID t) (map p_ProductID ps).
Proof.
  intros H Ht.
  destruct (in_dec string_dec (t_ProductID t) (map p_ProductID ps))
    as [Hin|Hout]; [exact Hin|].
  rewrite (unknown_product_raises t ts ps cs Ht Hout) in H. discriminate.
Qed.

(** The category column of a customer's group, row by row: the categories
    of the products the customer's transactions name, in table order. *)
Lemma group_categories ts ps k :
  (forall t, In t ts -> In (t_ProductID t) (map p_ProductID ps)) ->
  map m_Category (group k (merged_data ts ps))
  = map Some (bought_categories k ts ps).
Proof.
  unfold group, merged_data, bought_categories, transactions_of.
  induction ts as [|t ts IH]; intros Hknown; [reflexivity|].
  cbn [flat_map filter]. rewrite filter_app, map_app.
  rewrite IH by (intros t' Ht'; apply Hknown; now right). clear IH.
  destruct (filter (fun p => String.eqb (p_ProductID p) (t_ProductID t)) ps)
    as [|p0 ps'] eqn:F.
  - exfalso. apply (matching_product ps (t_ProductID t) F).
    apply Hknown. now left.
  - assert (G : forall l : list Product,
                map m_Category
                  (filter (fun r => String.eqb (m_CustomerID r) k)
                     (map (fun p => merged_row t (Some (p_Category p))) l))
                = if String.eqb (t_CustomerID t) k
                  then map Some (map p_Category l) else []).
    { induction l as [|x l IHl].
      - now destruct (String.eqb (t_CustomerID t) k).
      - cbn [map filter merged_row m_CustomerID]. 
        destruct (String.eqb (t_CustomerID t) k) eqn:E.
        + cbn [map m_Category]. now rewrite IHl.
        + exact IHl. }
    rewrite G. destruct (String.eqb (t_CustomerID t) k).
    + cbn [flat_map]. rewrite F, map_app. reflexivity.
    + reflexivity.
Qed.

(** C5 (as amended): the [Category] of a profile is the comma-joined
    string of the categories of the products the customer's transactions
    name, in the order of the transaction table and with repetitions; the
    encoder has one indicator dimension per distinct value of each
    categorical column, and a profile's row is the indicator of its own
    [Region] value followed by the indicator of its own [Category] string:
    1 at that one value, 0 at every other value of the column. *)
Theorem C5_one_hot_of_column_values ts ps cs profiles i p :
  customer_profiles ts ps cs = Ok profiles ->
  nth_error profiles i = Some p ->
  Category p = String.concat "," (bought_categories (CustomerID p) ts ps)
  /\ vocabulary_of (Region_column profiles)
       (categories (Region_column profiles))
  /\ vocabulary_of (Category_column profiles)
       (categories (Category_column profiles))
  /\ In (Region p) (categories (Region_column profiles))
  /\ In (Some (Category p)) (categories (Category_column profiles))
  /\ exists rvec cvec,
       nth_error (categorical_block profiles) i = Some (rvec ++ cvec)
       /\ indicator_of (categories (Region_column profiles)) (Region p) rvec
       /\ indicator_of (categories (Category_column profiles))
            (Some (Category p)) cvec.
Proof.
  intros Hrun Hp.
  pose proof (nth_error_In _ _ Hp) as Hin.
  split.
  { pose proof (profile_category ts ps cs profiles p Hrun Hin) as Hj.
    rewrite group_categories in Hj
      by (intros t Ht; eapply products_known_when_ok; eauto).
    rewrite join_categories_present in Hj. congruence. }
  split; [apply categories_vocabulary|].
  split; [apply categories_vocabulary|].
  split; [|split].
  - apply categories_vocabulary. unfold Region_column. now apply in_map.
  - apply categories_vocabulary. unfold Category_column.
    apply in_map_iff. eauto.
  - eexists _, _. split; [|split; apply one_hot_indicator].
    unfold categorical_block. rewrite nth_error_map, Hp. reflexivity.
Qed.

Lemma C5_one_hot_of_column_values_witness :
  Category (mkProfile "C0001" 6 22 "Electronics,Books,Books" (Some "Asia"))
  = String.concat ","
      (bought_categories
         (CustomerID
            (mkProfile "C0001" 6 22 "Electronics,Books,Books" (Some "Asia")))
         transactions_repeat products2)
  /\ vocabulary_of (Region_column profiles_repeat)
       (categories (Region_column profiles_repeat))
  /\ vocabulary_of (Category_column profiles_repeat)
       (categories (Category_column profiles_repeat))
  /\ In (Some "Asia") (categories (Region_column profiles_repeat))
  /\ In (Some "Electronics,Books,Books")
       (categories (Category_column profiles_repeat))
  /\ exists rvec cvec,
       nth_error (categorical_block profiles_repeat) 0 = Some (rvec ++ cvec)
       /\ indicator_of (categories (Region_column profiles_repeat))
            (Some "Asia") rvec
       /\ indicator_of (categories (Category_column profiles_repeat))
            (Some "Electronics,Books,Books") cvec.
Proof.
  apply (C5_one_hot_of_column_values transactions_repeat products2 customers3
           profiles_repeat 0
           (mkProfile "C0001" 6 22 "Electronics,Books,Books" (Some "Asia"))).
  - reflexivity.
  - reflexivity.
Defined.
End EncodedCategories.

(** * Task 2: the shape of the encoded rows *)

Section EncodedRows.
Import Pandas Aggregator Encoder Props Views Examples.

Lemma sumQ_app l l' : sumQ (l ++ l') == sumQ l + sumQ l'.
Proof.
  induction l as [|x l IH]; simpl; [ring|]. rewrite IH. ring.
Qed.

Lemma one_hot_absent cats v : ~ In v cats -> sumQ (one_hot cats v) == 0.
Proof.
  induction cats as [|c cats IH]; simpl; intros H; [reflexivity|].
  destruct (opt_eqb c v) eqn:E.
  - apply opt_eqb_eq in E. tauto.
  - rewrite IH by tauto. ring.
Qed.

(** The indicator of a value of the vocabulary has a single 1. *)
Lemma one_hot_sum cats v : NoDup cats -> In v cats -> sumQ (one_hot cats v) == 1.
Proof.
  induction 1 as [|c cats Hnotin Hnd IH]; simpl; intros Hin; [tauto|].
  destruct (opt_eqb c v) eqn:E.
  - apply opt_eqb_eq in E. subst c. rewrite one_hot_absent by exact Hnotin. ring.
  - destruct Hin as [->|Hin].
    + assert (opt_eqb v v = true) by now apply opt_eqb_eq. congruence.
    + rewrite IH by exact Hin. ring.
Qed.

Lemma one_hot_indicators cats v : indicators (one_hot cats v).
Proof.
  unfold indicators, one_hot. apply Forall_forall. intros x Hx.
  apply in_map_iff in Hx. destruct Hx as (c & <- & _).
  destruct (opt_eqb c v); auto.
Qed.

(** X6: the categorical block has one row per profile; every row has the
    same number of entries, one per value of [Region] plus one per value of
    [Category]; its entries are 0 or 1 and add up to 2, one indicator set
    in each of the two columns. *)
Theorem X6_encoded_rows_shape profiles :
  List.length (categorical_block profiles) = List.length profiles
  /\ Forall
       (fun row =>
          List.length row
          = (List.length (categories (Region_column profiles))
             + List.length (categories (Category_column profiles)))%nat
          /\ indicators row
          /\ sumQ row == 2)
       (categorical_block profiles).
Proof.
  unfold categorical_block. split; [apply length_map|].
  apply Forall_forall. intros row Hrow.
  apply in_map_iff in Hrow. destruct Hrow as (p & <- & Hp).
  split; [|split].
  - unfold one_hot. now rewrite length_app, !length_map.
  - apply Forall_app. split; apply one_hot_indicators.
  - rewrite sumQ_app, !one_hot_sum; try apply categories_vocabulary.
    + reflexivity.
    + unfold Category_column. apply in_map_iff. eauto.
    + unfold Region_column. now apply in_map.
Qed.

Lemma app_same_length {A} (a a' b b' : list A) :
  List.length a = List.length a' -> a ++ b = a' ++ b' -> a = a' /\ b = b'.
Proof.
  revert a'. induction a as [|x a IH]; intros [|y a'] Hl H; simpl in *;
    try discriminate; auto.
  inversion H; subst. destruct (IH a') as [-> ->]; auto.
Qed.

Lemma one_hot_inj cats v w :
  In v cats -> one_hot cats v = one_hot cats w -> v = w.
Proof.
  induction cats as [|c cats IH]; simpl; intros Hin H; [tauto|].
  inversion H as [[Hh Ht]].
  destruct (opt_eqb c v) eqn:Ev.
  - destruct (opt_eqb c w) eqn:Ew; [|discriminate].
    apply opt_eqb_eq in Ev, Ew. congruence.
  - destruct Hin as [->|Hin]; [|now apply IH].
    assert (opt_eqb v v = true) by now apply opt_eqb_eq. congruence.
Qed.

(** X7: two profiles get the same categorical row exactly when they have
    the same region and the same joined category string. *)
Theorem X7_encoded_rows_equal_iff profiles i j p q :
  nth_error profiles i = Some p ->
  nth_error profiles j = Some q ->
  (nth_error (categorical_block profiles) i
   = nth_error (categorical_block profiles) j
   <-> Region p = Region q /\ Category p = Category q).
Proof.
  intros Hp Hq. unfold categorical_block.
  rewrite !nth_error_map, Hp, Hq. simpl. split.
  - intros H. inversion H as [H'].
    apply app_same_length in H'; [|unfold one_hot; now rewrite !length_map].
    destruct H' as [Hr Hc].
    apply one_hot_inj in Hr, Hc.
    + split; congruence.
    + apply categories_vocabulary. unfold Category_column.
      apply in_map_iff. exists p. split; [reflexivity|].
      eapply nth_error_In; eauto.
    + apply categories_vocabulary. unfold Region_column. apply in_map.
      eapply nth_error_In; eauto.
  - intros [-> ->]. reflexivity.
Qed.

Lemma X7_encoded_rows_equal_iff_witness :
  nth_error (categorical_block profiles2) 0
  = nth_error (categorical_block profiles2) 1
  <-> Some "Asia" = Some "Europe" /\ "Books,Electronics" = "Books".
Proof.
  apply (X7_encoded_rows_equal_iff profiles2 0 1
           (mkProfile "C0001" 4 12 "Books,Electronics" (Some "Asia"))
           (mkProfile "C0002" 2 10 "Books" (Some "Europe")));
    reflexivity.
Defined.
End EncodedRows.

(** * Task 2: which candidates are returned, and with which scores *)

Section Selection.
Import Numpy Lookalike Props Examples.

Lemma StronglySorted_app_cross {A} (R : A -> A -> Prop) (l1 l2 : list A) x y :
  StronglySorted R (l1 ++ l2) -> In x l1 -> In y l2 -> R x y.
Proof.
  induction l1 as [|z l1 IH]; simpl; intros Hs Hx Hy; [tauto|].
  inversion Hs as [|? ? Hs' Hall]; subst.
  destruct Hx as [->|Hx]; [|now apply IH].
  rewrite Forall_forall in Hall. apply Hall, in_or_app. now right.
Qed.

(** The selection splits the ascending order: what is returned is its tail,
    what is left out is the head before it. *)
Lemma ranked_split top_n row :
  exists k,
    ranked top_n row = rev (skipn k (isort Qle_bool (enumerate row))).
Proof. unfold ranked, reversed, slice_from. eauto. Qed.

(** X8: the returned candidates are the best ones: a customer that is
    not returned has a similarity to the query customer that is at most
    every returned score. *)
Theorem X8_left_out_not_better cid ids top_n m :
  In cid ids -> square_over ids m ->
  exists i res,
    get_item (matching_index cid ids 0) 0 = Ok i
    /\ snd (get_top_lookalikes cid ids top_n m) = Ok res
    /\ forall j c v,
         j <> i -> nth_error ids j = Some c -> entry m i j = Some v ->
         ~ In c (map fst res) ->
         forall s, In s (map snd res) -> v <= s.
Proof.
  intros Hin Hsq.
  destruct (get_top_lookalikes_run cid ids top_n m Hin Hsq)
    as (i & row & Hidx & Hid & Hrow & Hlen & E).
  assert (Hi : (i < List.length row)%nat)
    by (rewrite Hlen; apply nth_error_Some; congruence).
  exists i. eexists. split; [exact Hidx|]. split; [now rewrite E|].
  intros j c v Hj Hc Hv Hout s Hs.
  unfold entry in Hv. rewrite Hrow in Hv.
  set (row' := updated row i (-1)) in *.
  destruct (ranked_split top_n row') as (k & Ek).
  set (sorted := isort Qle_bool (enumerate row')) in *.
  assert (Hjv : In (j, v) sorted).
  { eapply Permutation_in; [symmetry; apply isort_perm|].
    apply enumerate_In. unfold row'. rewrite updated_nth_other; auto. }
  rewrite map_map in Hs. simpl in Hs. apply in_map_iff in Hs.
  destruct Hs as ([j' s'] & <- & Hs'). simpl.
  rewrite Ek in Hs'. apply in_rev in Hs'.
  rewrite <- (firstn_skipn k sorted) in Hjv. apply in_app_or in Hjv.
  destruct Hjv as [Hhead|Htail].
  - assert (Hsorted : StronglySorted (key_le Qle_bool)
                        (firstn k sorted ++ skipn k sorted)).
    { rewrite firstn_skipn.
      apply (isort_sorted Q Qle_bool Qle_bool_total Qle_bool_trans). }
    pose proof (StronglySorted_app_cross _ _ _ _ _ Hsorted Hhead Hs') as Hle.
    unfold key_le in Hle. simpl in Hle. now apply Qle_bool_iff.
  - exfalso. apply Hout. rewrite map_map. simpl.
    apply in_map_iff. exists (j, v). split.
    + simpl. now apply nth_error_nth.
    + rewrite Ek. now apply -> in_rev.
Qed.

Lemma X8_left_out_not_better_witness :
  exists i res,
    get_item (matching_index "C0002" ids3 0) 0 = Ok i
    /\ snd (get_top_lookalikes "C0002" ids3 1 sim3) = Ok res
    /\ forall j c v,
         j <> i -> nth_error ids3 j = Some c -> entry sim3 i j = Some v ->
         ~ In c (map fst res) ->
         forall s, In s (map snd res) -> v <= s.
Proof.
  apply (X8_left_out_not_better "C0002" ids3 1 sim3).
  - simpl. auto.
  - unfold square_over. split; [reflexivity | repeat constructor].
Defined.

(** X9: every returned pair carries the similarity of its candidate to the
    query customer as it stands in the query customer's row of the matrix;
    only the query customer's own entry carries [-1] instead. *)
Theorem X9_returned_scores_are_row_entries cid ids top_n m :
  In cid ids -> square_over ids m ->
  exists i res,
    get_item (matching_index cid ids 0) 0 = Ok i
    /\ snd (get_top_lookalikes cid ids top_n m) = Ok res
    /\ forall c s,
         In (c, s) res ->
         exists j,
           nth_error ids j = Some c
           /\ (j <> i -> entry m i j = Some s)
           /\ (j = i -> s = -1).
Proof.
  intros Hin Hsq.
  destruct (get_top_lookalikes_run cid ids top_n m Hin Hsq)
    as (i & row & Hidx & Hid & Hrow & Hlen & E).
  assert (Hi : (i < List.length row)%nat)
    by (rewrite Hlen; apply nth_error_Some; congruence).
  exists i. eexists. split; [exact Hidx|]. split; [now rewrite E|].
  intros c s Hcs. apply in_map_iff in Hcs.
  destruct Hcs as ([j v] & Ejv & Hjv). simpl in Ejv. inversion Ejv; subst c s.
  exists j.
  assert (Hnth : nth_error (updated row i (-1)) j = Some v).
  { apply enumerate_nth. unfold ranked, reversed in Hjv.
    apply in_rev, slice_from_incl in Hjv.
    eapply Permutation_in; [apply isort_perm | exact Hjv]. }
  assert (Hjb : (j < List.length ids)%nat).
  { rewrite <- Hlen, <- (updated_length row i (-1)) by exact Hi.
    apply nth_error_Some. congruence. }
  split; [now apply nth_error_nth'|]. split.
  - intros Hne. unfold entry. rewrite Hrow.
    rewrite updated_nth_other in Hnth by auto. exact Hnth.
  - intros ->. rewrite updated_nth_same in Hnth by exact Hi. congruence.
Qed.

Lemma X9_returned_scores_are_row_entries_witness :
  exists i res,
    get_item (matching_index "C0002" ids3 0) 0 = Ok i
    /\ snd (get_top_lookalikes "C0002" ids3 2 sim3) = Ok res
    /\ forall c s,
         In (c, s) res ->
         exists j,
           nth_error ids3 j = Some c
           /\ (j <> i -> entry sim3 i j = Some s)
           /\ (j = i -> s = -1).
Proof.
  apply (X9_returned_scores_are_row_entries "C0002" ids3 2 sim3).
  - simpl. auto.
  - unfold square_over. split; [reflexivity | repeat constructor].
Defined.

(** X10: the number of returned pairs for every integer [top_n]: with [M]
    profile rows, [min top_n M] for a positive [top_n], all [M] rows for
    [top_n = 0], and the rows that remain after the [-top_n] lowest scores
    are cut off for a negative [top_n]. *)
Theorem X10_result_length_for_any_top_n cid ids top_n m :
  In cid ids -> square_over ids m ->
  exists res,
    snd (get_top_lookalikes cid ids top_n m) = Ok res
    /\ List.length res
       = if (0 <? top_n)%Z
         then Nat.min (Z.to_nat top_n) (List.length ids)
         else (List.length ids
               - Nat.min (Z.to_nat (- top_n)) (List.length ids))%nat.
Proof.
  intros Hin Hsq.
  destruct (get_top_lookalikes_run cid ids top_n m Hin Hsq)
    as (i & row & _ & Hid & _ & Hlen & E).
  assert (Hi : (i < List.length row)%nat)
    by (rewrite Hlen; apply nth_error_Some; congruence).
  rewrite E. eexists. split; [reflexivity|].
  rewrite length_map. unfold ranked, reversed, slice_from.
  rewrite length_rev, length_skipn, isort_length, enumerate_length,
    updated_length, Hlen by exact Hi.
  destruct (Z.ltb_spec 0 top_n); destruct (Z.ltb_spec (- top_n) 0); lia.
Qed.

Lemma X10_result_length_for_any_top_n_witness :
  exists res,
    snd (get_top_lookalikes "C0001" ids3 (-1) sim3) = Ok res
    /\ List.length res
       = if (0 <? -1)%Z
         then Nat.min (Z.to_nat (-1)) (List.length ids3)
         else (List.length ids3
               - Nat.min (Z.to_nat (- -1)) (List.length ids3))%nat.
Proof.
  apply (X10_result_length_for_any_top_n "C0001" ids3 (-1) sim3).
  - simpl. auto.
  - unfold square_over. split; [reflexivity | repeat constructor].
Defined.
End Selection.

(** * Task 2: instances of the facts on the query customer *)

Section SelfListingInstances.
Import Numpy Lookalike Props Examples.

Lemma self_listed_when_few_profiles_witness :
  exists res,
    snd (get_top_lookalikes "C0002" ids3 3 sim3) = Ok res
    /\ In ("C0002", -1) res.
Proof.
  apply (self_listed_when_few_profiles "C0002" ids3 3 sim3).
  - simpl. auto.
  - unfold square_over. split; [reflexivity | repeat constructor].
  - lia.
  - simpl. lia.
Defined.

Lemma self_excluded_when_enough_others_witness :
  exists res,
    snd (get_top_lookalikes "C0001" ids3 2 sim3) = Ok res
    /\ ~ In "C0001" (map fst res).
Proof.
  apply (self_excluded_when_enough_others "C0001" ids3 2 sim3 0
           [1; 1 # 2; 1 # 2]).
  - repeat constructor; simpl; intuition discriminate.
  - unfold square_over. split; [reflexivity | repeat constructor].
  - reflexivity.
  - reflexivity.
  - simpl. lia.
  - intros [|[|[|j]]] v Hj Hv; simpl in Hv; try congruence.
    + inversion Hv; subst. reflexivity.
    + inversion Hv; subst. reflexivity.
    + destruct j; discriminate.
Defined.

Lemma later_query_unaffected_witness :
  snd (get_top_lookalikes "C0002" ids3 2
         (fst (get_top_lookalikes "C0001" ids3 3 sim3)))
  = snd (get_top_lookalikes "C0002" ids3 2 sim3).
Proof.
  apply (later_query_unaffected "C0001" "C0002" ids3 3 2 sim3).
  - simpl. auto.
  - simpl. auto.
  - unfold square_over. split; [reflexivity | repeat constructor].
Defined.
End SelfListingInstances.

(** * Task 2: the loop over the queried customers *)

Section QueryLoop.
Import Numpy Pandas Aggregator Lookalike LookalikeScript Props Views Examples.

Lemma query_entry cid ids top_n m a b :
  entry (fst (get_top_lookalikes cid ids top_n m)) a b = entry m a b
  \/ (a = b
      /\ entry (fst (get_top_lookalikes cid ids top_n m)) a b = Some (-1)).
Proof.
  destruct (get_top_lookalikes_state cid ids top_n m)
    as [E | (i & row & Hidx & Hrow & Hi & E)]; rewrite E; [now left|].
  assert (Hm : (i < List.length m)%nat)
    by (apply nth_error_Some; congruence).
  unfold entry.
  destruct (Nat.eq_dec i a) as [->|Hne].
  - rewrite updated_nth_same by exact Hm. rewrite Hrow.
    destruct (Nat.eq_dec a b) as [->|Hne].
    + right. rewrite updated_nth_same by exact Hi. auto.
    + left. now apply updated_nth_other.
  - left. now rewrite updated_nth_other.
Qed.

Lemma query_state_square cid ids top_n m :
  square_over ids m ->
  square_over ids (fst (get_top_lookalikes cid ids top_n m)).
Proof.
  intros Hsq.
  destruct (get_top_lookalikes_state cid ids top_n m)
    as [E | (i & row & Hidx & Hrow & Hi & E)]; rewrite E; [exact Hsq|].
  assert (Hlen : List.length row = List.length ids).
  { destruct Hsq as [_ Hrows]. rewrite Forall_forall in Hrows.
    apply Hrows. eapply nth_error_In; eauto. }
  apply square_over_updated; auto.
  - apply nth_error_Some. congruence.
  - now rewrite updated_length.
Qed.

(** What a query returns depends on the matrix only through the entries
    outside the diagonal. *)
Lemma query_depends_off_diagonal cid ids top_n m m' :
  In cid ids -> square_over ids m -> square_over ids m' ->
  off_diagonal_agree m m' ->
  snd (get_top_lookalikes cid ids top_n m')
  = snd (get_top_lookalikes cid ids top_n m).
Proof.
  intros Hin Hsq Hsq' Hagree.
  destruct (get_top_lookalikes_run cid ids top_n m Hin Hsq)
    as (i & row & Hidx & _ & Hrow & Hlen & E).
  destruct (get_top_lookalikes_run cid ids top_n m' Hin Hsq')
    as (i' & row' & Hidx' & Hid & Hrow' & Hlen' & E').
  assert (i' = i) by congruence. subst i'.
  assert (Hi : (i < List.length ids)%nat)
    by (apply nth_error_Some; congruence).
  rewrite E, E'. simpl. do 3 f_equal.
  apply nth_error_ext. intros n.
  destruct (Nat.eq_dec i n) as [<-|Hne].
  - rewrite !updated_nth_same by lia. reflexivity.
  - rewrite !updated_nth_other by (auto; lia).
    specialize (Hagree i n Hne). unfold entry in Hagree.
    now rewrite Hrow, Hrow' in Hagree.
Qed.

Lemma dict_get_set_same {V} k (v : V) d : dict_get k (dict_set k v d) = Some v.
Proof.
  unfold dict_get. induction d as [|[k' v'] d IH]; simpl.
  - now rewrite String.eqb_refl.
  - destruct (String.eqb_spec k' k) as [->|Hne]; simpl.
    + now rewrite String.eqb_refl.
    + destruct (String.eqb_spec k' k); [contradiction | exact IH].
Qed.

Lemma dict_get_set_other {V} k k' (v : V) d :
  k' <> k -> dict_get k' (dict_set k v d) = dict_get k' d.
Proof.
  intros Hne. unfold dict_get. induction d as [|[k0 v0] d IH]; simpl.
  - destruct (String.eqb_spec k k'); [congruence | reflexivity].
  - destruct (String.eqb_spec k0 k) as [->|Hne0]; simpl.
    + destruct (String.eqb_spec k k'); [congruence | reflexivity].
    + destruct (String.eqb_spec k0 k'); [reflexivity | exact IH].
Qed.

Lemma dict_set_new_key {V} k (v : V) d :
  ~ In k (map fst d) -> map fst (dict_set k v d) = map fst d ++ [k].
Proof.
  induction d as [|[k' v'] d IH]; simpl; intros Hn; [reflexivity|].
  destruct (String.eqb_spec k' k) as [->|Hne]; [tauto|].
  simpl. rewrite IH; tauto.
Qed.

(** The dictionary the loop builds from the isolated results [f]. *)
Lemma filled_get {V} (f : string -> V) queries acc k :
  dict_get k (fold_left (fun d q => dict_set q (f q) d) queries acc)
  = if in_dec string_dec k queries then Some (f k) else dict_get k acc.
Proof.
  revert acc. induction queries as [|q qs IH]; intros acc; [reflexivity|].
  cbn [fold_left]. rewrite IH.
  destruct (in_dec string_dec k qs) as [Hin|Hn];
    destruct (in_dec string_dec k (q :: qs)) as [Hin'|Hn'].
  - reflexivity.
  - exfalso. apply Hn'. now right.
  - destruct Hin' as [->|Hin']; [|contradiction]. apply dict_get_set_same.
  - apply dict_get_set_other. intros ->. apply Hn'. now left.
Qed.

Lemma filled_keys {V} (f : string -> V) queries acc :
  NoDup (map fst acc ++ queries) ->
  map fst (fold_left (fun d q => dict_set q (f q) d) queries acc)
  = map fst acc ++ queries.
Proof.
  revert acc. induction queries as [|q qs IH]; intros acc Hnd.
  - simpl. now rewrite app_nil_r.
  - cbn [fold_left].
    assert (Hq : ~ In q (map fst acc)).
    { intros Hin. apply NoDup_remove_2 in Hnd. apply Hnd.
      apply in_or_app. now left. }
    rewrite IH; rewrite dict_set_new_key by exact Hq.
    + now rewrite <- app_assoc.
    + rewrite <- app_assoc. exact Hnd.
Qed.

Lemma lookalikes_loop_ok queries ids m0 m acc :
  square_over ids m0 -> square_over ids m -> off_diagonal_agree m0 m ->
  (forall q, In q queries -> In q ids) ->
  snd (lookalikes_loop queries ids acc m)
  = Ok (fold_left
          (fun d q =>
             dict_set q
               (returned (snd (get_top_lookalikes q ids default_top_n m0))) d)
          queries acc).
Proof.
  intros Hsq0. revert m acc.
  induction queries as [|q qs IH]; intros m acc Hsq Hagree Hq; [reflexivity|].
  cbn [lookalikes_loop fold_left]. unfold bind.
  assert (Hin : In q ids) by (apply Hq; now left).
  pose proof (query_depends_off_diagonal q ids default_top_n m0 m
                Hin Hsq0 Hsq Hagree) as Hsame.
  pose proof (query_state_square q ids default_top_n m Hsq) as Hsq1.
  assert (Hagree1 : off_diagonal_agree m0
                      (fst (get_top_lookalikes q ids default_top_n m))).
  { intros a b Hab.
    destruct (query_entry q ids default_top_n m a b) as [E|[E _]];
      [|contradiction].
    rewrite E. now apply Hagree. }
  destruct (get_top_lookalikes_run q ids default_top_n m Hin Hsq)
    as (i & row & _ & _ & _ & _ & E).
  rewrite <- Hsame. rewrite E in *. simpl in *.
  apply IH; auto; intros q' Hq'; apply Hq; now right.
Qed.

(** X14: when every queried customer has a profile row, the loop returns
    a dictionary whose entry for each queried customer is what a call on
    the untouched matrix returns for that customer, and which has no entry
    for anyone else; with distinct queried identifiers its keys are the
    queried customers in table order. *)
Theorem X14_loop_entries_are_isolated_results cs profiles m :
  square_over (map CustomerID profiles) m ->
  (forall q, In q (map c_CustomerID (top_20_customers cs)) ->
             In q (map CustomerID profiles)) ->
  exists d,
    snd (lookalikes cs profiles m) = Ok d
    /\ (forall q, In q (map c_CustomerID (top_20_customers cs)) ->
          exists r,
            snd (get_top_lookalikes q (map CustomerID profiles)
                   default_top_n m) = Ok r
            /\ dict_get q d = Some r)
    /\ (forall k, ~ In k (map c_CustomerID (top_20_customers cs)) ->
          dict_get k d = None)
    /\ (NoDup (map c_CustomerID (top_20_customers cs)) ->
          map fst d = map c_CustomerID (top_20_customers cs)).
Proof.
  intros Hsq Hq. unfold lookalikes.
  set (queries := map c_CustomerID (top_20_customers cs)) in *.
  set (ids := map CustomerID profiles) in *.
  rewrite (lookalikes_loop_ok queries ids m m []); auto;
    [|intros a b _; reflexivity].
  eexists. split; [reflexivity|]. split; [|split].
  - intros q Hin.
    destruct (get_top_lookalikes_run q ids default_top_n m (Hq q Hin) Hsq)
      as (i & row & _ & _ & _ & _ & E).
    eexists. split; [now rewrite E|].
    rewrite filled_get. destruct (in_dec string_dec q queries); [|tauto].
    now rewrite E.
  - intros k Hn. rewrite filled_get.
    destruct (in_dec string_dec k queries); [tauto | reflexivity].
  - intros Hnd. now rewrite filled_keys.
Qed.

Lemma X14_loop_entries_are_isolated_results_witness :
  exists d,
    snd (lookalikes [mkCustomer "C0001" "Asia"; mkCustomer "C0002" "Europe"]
           profiles2 [[1; 1 # 2]; [1 # 2; 1]]) = Ok d
    /\ (forall q,
          In q (map c_CustomerID
                  (top_20_customers
                     [mkCustomer "C0001" "Asia"; mkCustomer "C0002" "Europe"])) ->
          exists r,
            snd (get_top_lookalikes q (map CustomerID profiles2)
                   default_top_n [[1; 1 # 2]; [1 # 2; 1]]) = Ok r
            /\ dict_get q d = Some r)
    /\ (forall k,
          ~ In k (map c_CustomerID
                    (top_20_customers
                       [mkCustomer "C0001" "Asia"; mkCustomer "C0002" "Europe"])) ->
          dict_get k d = None)
    /\ (NoDup (map c_CustomerID
                 (top_20_customers
                    [mkCustomer "C0001" "Asia"; mkCustomer "C0002" "Europe"])) ->
          map fst d
          = map c_CustomerID
              (top_20_customers
                 [mkCustomer "C0001" "Asia"; mkCustomer "C0002" "Europe"])).
Proof.
  apply (X14_loop_entries_are_isolated_results
           [mkCustomer "C0001" "Asia"; mkCustomer "C0002" "Europe"]
           profiles2 [[1; 1 # 2]; [1 # 2; 1]]).
  - unfold square_over. split; [reflexivity | repeat constructor].
  - intros q Hq. exact Hq.
Defined.

(** X15: whatever the loop returns, it leaves every entry of the matrix
    outside the diagonal as it was; a diagonal entry is either as it was
    or [-1]. *)
Theorem X15_loop_writes_only_diagonal cs profiles m a b :
  entry (fst (lookalikes cs profiles m)) a b = entry m a b
  \/ (a = b /\ entry (fst (lookalikes cs profiles m)) a b = Some (-1)).
Proof.
  unfold lookalikes.
  generalize (map c_CustomerID (top_20_customers cs)) as queries.
  generalize (map CustomerID profiles) as ids.
  generalize (@nil (string * list (string * Q))) as acc.
  intros acc ids queries. revert acc m.
  induction queries as [|q qs IH]; intros acc m; [now left|].
  cbn [lookalikes_loop]. unfold bind.
  pose proof (query_entry q ids default_top_n m a b) as Hq.
  destruct (get_top_lookalikes q ids default_top_n m) as [m1 [r|e]];
    simpl in Hq |- *; [|exact Hq].
  destruct (IH (dict_set q r acc) m1) as [E|[Eab E]].
  - rewrite E. exact Hq.
  - right. auto.
Qed.
End QueryLoop.

(** * Task 3: the profile table of the segmentation script *)

Section SegmentationProfiles.
Import Pandas Sklearn Clustering Props Views Examples.

Lemma clustering_merged_customers ts cs c :
  In c (map t_CustomerID (merged_data ts cs)) <-> In c (map t_CustomerID ts).
Proof.
  unfold merged_data. rewrite !in_map_iff. split.
  - intros (r & <- & Hr). apply in_flat_map in Hr.
    destruct Hr as (t & Ht & Hr). exists t. split; [|exact Ht].
    destruct (filter _ cs) as [|c0 cs'].
    + destruct Hr as [->|[]]. reflexivity.
    + apply in_map_iff in Hr. destruct Hr as (c' & -> & _). reflexivity.
  - intros (t & <- & Ht). exists t. split; [reflexivity|].
    apply in_flat_map. exists t. split; [exact Ht|].
    destruct (filter _ cs) as [|c0 cs']; simpl; auto.
Qed.

(** X16: the profile table of the segmentation script has exactly one row
    per customer that occurs in a transaction, in strictly ascending order
    of identifier, whatever the customer table holds. *)
Theorem X16_segmentation_profile_rows ts cs :
  NoDup (map CustomerID (customer_profiles ts cs))
  /\ (forall c, In c (map CustomerID (customer_profiles ts cs))
                <-> In c (map t_CustomerID ts))
  /\ strictly_ascending (map CustomerID (customer_profiles ts cs)).
Proof.
  unfold customer_profiles. rewrite map_map. simpl. rewrite map_id.
  split; [apply unique_sorted_NoDup|]. split.
  - intros c. rewrite unique_sorted_In. apply clustering_merged_customers.
  - apply unique_sorted_ascending.
Qed.

Lemma matches_count cs k :
  List.length (filter (fun c => String.eqb (c_CustomerID c) k) cs)
  = count_occ string_dec (map c_CustomerID cs) k.
Proof.
  induction cs as [|c cs IH]; simpl; [reflexivity|].
  destruct (String.eqb_spec (c_CustomerID c) k) as [E|E];
    destruct (string_dec (c_CustomerID c) k); try contradiction; simpl; lia.
Qed.

(** The rows the join produces for one customer's transactions. *)
Lemma joined_quantity ts cs k :
  total (map t_Quantity
           (filter (fun r => String.eqb (t_CustomerID r) k) (merged_data ts cs)))
  = (Z.of_nat (multiplicity k (map c_CustomerID cs))
     * total (map t_Quantity (transactions_of k ts)))%Z.
Proof.
  unfold merged_data, transactions_of, multiplicity.
  rewrite <- matches_count.
  induction ts as [|t ts IH]; [simpl; lia|].
  cbn [flat_map]. rewrite filter_app, map_app, total_app, IH. clear IH.
  cbn [filter].
  set (S := total (map t_Quantity
                     (filter (fun t0 => String.eqb (t_CustomerID t0) k) ts))).
  destruct (String.eqb_spec (t_CustomerID t) k) as [E|E].
  - subst k.
    destruct (filter (fun c => String.eqb (c_CustomerID c) (t_CustomerID t)) cs)
      as [|c0 cs'] eqn:F.
    + cbn [filter]. rewrite String.eqb_refl. cbn [map].
      rewrite !total_cons. change (total []) with 0%Z.
      change (Nat.max 1 (List.length (@nil Customer))) with 1%nat. lia.
    + assert (G : forall l : list Customer,
                filter (fun r => String.eqb (t_CustomerID r) (t_CustomerID t))
                  (map (fun _ : Customer => t) l)
                = map (fun _ : Customer => t) l).
      { induction l as [|x l IHl]; simpl; [reflexivity|].
        rewrite String.eqb_refl. now rewrite IHl. }
      rewrite G, map_map, total_constant. cbn [map]. rewrite total_cons.
      replace (Nat.max 1 (List.length (c0 :: cs')))
        with (List.length (c0 :: cs')) by (simpl; lia).
      subst S. now rewrite Z.mul_add_distr_l.
  - assert (G : filter (fun r => String.eqb (t_CustomerID r) k)
                  match filter (fun c => String.eqb (c_CustomerID c) (t_CustomerID t)) cs with
                  | [] => [t]
                  | c :: l => map (fun _ : Customer => t) (c :: l)
                  end = []).
    { destruct (filter _ cs) as [|c0 cs'].
      - simpl. destruct (String.eqb_spec (t_CustomerID t) k);
          [contradiction | reflexivity].
      - generalize (c0 :: cs'). intros l. induction l as [|x l IHl];
          simpl; [reflexivity|].
        destruct (String.eqb_spec (t_CustomerID t) k);
          [contradiction | exact IHl]. }
    rewrite G. change (total (map t_Quantity [])) with 0%Z. subst S. lia.
Qed.

(** X17: the quantity of a profile is the 64-bit sum of the quantities of
    that customer's transactions, counted once per row the customer table
    has for the customer, and once when it has none: duplicate customer
    rows multiply the total, and the result wraps around like the [int64]
    column it is stored in. *)
Theorem X17_segmentation_quantity_with_multiplicity ts cs p :
  In p (customer_profiles ts cs) ->
  Quantity p
  = wrap_int64
      (Z.of_nat (multiplicity (CustomerID p) (map c_CustomerID cs))
       * total (map t_Quantity (transactions_of (CustomerID p) ts)))%Z.
Proof.
  unfold customer_profiles. intros Hp. apply in_map_iff in Hp.
  destruct Hp as (k & <- & _). cbn [Quantity CustomerID].
  rewrite sumZ_total. f_equal. apply joined_quantity.
Qed.

Lemma X17_segmentation_quantity_with_multiplicity_witness :
  Quantity (mkProfile "C0001" 8 24)
  = wrap_int64
      (Z.of_nat
         (multiplicity (CustomerID (mkProfile "C0001" 8 24))
            (map c_CustomerID
               [mkCustomer "C0001" "Asia"; mkCustomer "C0001" "Asia "]))
       * total (map t_Quantity
                  (transactions_of (CustomerID (mkProfile "C0001" 8 24))
                     transactions3)))%Z.
Proof.
  apply (X17_segmentation_quantity_with_multiplicity transactions3
           [mkCustomer "C0001" "Asia"; mkCustomer "C0001" "Asia "]).
  vm_compute. auto.
Defined.

Lemma clustering_merged_unique ts cs :
  NoDup (map c_CustomerID cs) -> merged_data ts cs = ts.
Proof.
  intros Hnd. unfold merged_data.
  induction ts as [|t ts IH]; [reflexivity|].
  cbn [flat_map]. rewrite IH.
  destruct (unique_key_matches c_CustomerID cs (t_CustomerID t) Hnd)
    as [->|(c & ->)]; reflexivity.
Qed.

(** X18: with unique customer identifiers the join with the customer table
    changes nothing; when moreover no customer's quantities add up beyond
    64 bits, the quantities of the profiles add up to those of all
    transactions. *)
Theorem X18_segmentation_totals_conserved ts cs :
  NoDup (map c_CustomerID cs) ->
  customer_profiles ts cs = customer_profiles ts []
  /\ ((forall k, In k (map t_CustomerID ts) ->
         in_int64 (total (map t_Quantity (transactions_of k ts)))) ->
      total (map Quantity (customer_profiles ts cs))
      = total (map t_Quantity ts)).
Proof.
  intros Hnd. unfold customer_profiles.
  rewrite (clustering_merged_unique ts cs Hnd).
  rewrite (clustering_merged_unique ts []) by constructor.
  split; [reflexivity|]. intros Hfit.
  rewrite !map_map. cbn [Quantity].
  rewrite (map_ext_in _
             (fun k => total (map t_Quantity
                                (filter (fun r => String.eqb (t_CustomerID r) k) ts)))).
  - apply (total_by_group t_CustomerID t_Quantity).
    + apply unique_sorted_NoDup.
    + intros r Hr. apply unique_sorted_In. now apply in_map.
  - intros k Hk. rewrite sumZ_total. apply wrap_int64_small.
    apply Hfit. now apply unique_sorted_In.
Qed.

Lemma X18_segmentation_totals_conserved_witness :
  customer_profiles transactions4 customers3 = customer_profiles transactions4 []
  /\ total (map Quantity (customer_profiles transactions4 customers3))
     = total (map t_Quantity transactions4).
Proof.
  destruct (X18_segmentation_totals_conserved transactions4 customers3)
    as [H1 H2].
  - repeat constructor; simpl; intuition discriminate.
  - split; [exact H1|]. apply H2. intros k Hk. simpl in Hk.
    destruct Hk as [<-|[<-|[<-|[<-|[]]]]]; vm_compute;
      (split; [discriminate | reflexivity]).
Defined.
End SegmentationProfiles.

(** * Task 3: the labels and the scores *)

Section LabelsAndScores.
Import Pandas Sklearn Clustering Metrics Props Views Examples.

Lemma Qlt_bool_iff a b : Qlt_bool a b = true <-> a < b.
Proof.
  unfold Qlt_bool. rewrite negb_true_iff. split.
  - intros H. apply Qnot_le_lt. intros Hle.
    apply Qle_bool_iff in Hle. congruence.
  - intros H. destruct (Qle_bool b a) eqn:E; [|reflexivity].
    apply Qle_bool_iff in E. exfalso. eapply Qlt_not_le; eauto.
Qed.

(** The scan keeps, among the centres seen so far, the first one at the
    smallest distance. *)
Lemma nearest_from_spec x cs : forall pre j label d cl,
  List.length pre = j -> (label < j)%nat ->
  nth_error (pre ++ cs) label = Some cl -> d = sq_dist x cl ->
  (forall i ci, (i < j)%nat -> nth_error (pre ++ cs) i = Some ci ->
     d <= sq_dist x ci /\ ((i < label)%nat -> d < sq_dist x ci)) ->
  exists cr,
    nth_error (pre ++ cs) (nearest_from x cs j label d) = Some cr
    /\ forall i ci, nth_error (pre ++ cs) i = Some ci ->
         sq_dist x cr <= sq_dist x ci
         /\ ((i < nearest_from x cs j label d)%nat -> sq_dist x cr < sq_dist x ci).
Proof.
  induction cs as [|c cs IH]; intros pre j label d cl Hj Hl Hcl Hd Hinv.
  - simpl. exists cl. split; [exact Hcl|]. intros i ci Hi. subst d.
    apply Hinv; [|exact Hi].
    rewrite app_nil_r in Hi. rewrite <- Hj. apply nth_error_Some. congruence.
  - simpl.
    assert (Happ : pre ++ c :: cs = (pre ++ [c]) ++ cs)
      by now rewrite <- app_assoc.
    assert (Hc : nth_error (pre ++ c :: cs) j = Some c).
    { rewrite nth_error_app2 by lia. rewrite Hj, Nat.sub_diag. reflexivity. }
    rewrite Happ in *.
    destruct (Qlt_bool (sq_dist x c) d) eqn:E.
    + apply Qlt_bool_iff in E.
      apply (IH (pre ++ [c]) (S j) j (sq_dist x c) c); auto.
      * rewrite length_app. simpl. lia.
      * intros i ci Hi Hci.
        destruct (Nat.eq_dec i j) as [->|Hne].
        -- assert (ci = c) by congruence. subst ci.
           split; [apply Qle_refl | lia].
        -- destruct (Hinv i ci ltac:(lia) Hci) as [Hle _].
           assert (Hlt : sq_dist x c < sq_dist x ci)
             by (eapply Qlt_le_trans; eauto).
           split; [now apply Qlt_le_weak | auto].
    + assert (Hge : d <= sq_dist x c).
      { destruct (Qlt_le_dec (sq_dist x c) d) as [Hlt|Hle]; [|exact Hle].
        apply Qlt_bool_iff in Hlt. congruence. }
      apply (IH (pre ++ [c]) (S j) label d cl); auto.
      * rewrite length_app. simpl. lia.
      * intros i ci Hi Hci.
        destruct (Nat.eq_dec i j) as [->|Hne].
        -- assert (ci = c) by congruence. subst ci. split; [exact Hge | lia].
        -- apply Hinv; [lia | exact Hci].
Qed.

Lemma nearest_spec centers x :
  centers <> [] ->
  exists c0,
    nth_error centers (nearest centers x) = Some c0
    /\ forall j c, nth_error centers j = Some c ->
         sq_dist x c0 <= sq_dist x c
         /\ ((j < nearest centers x)%nat -> sq_dist x c0 < sq_dist x c).
Proof.
  destruct centers as [|c cs]; [congruence|]. intros _. unfold nearest.
  apply (nearest_from_spec x cs [c] 1 0 (sq_dist x c) c); auto.
  intros i ci Hi Hci. assert (i = 0)%nat by lia. subst i.
  simpl in Hci. inversion Hci; subst. split; [apply Qle_refl | lia].
Qed.

(** X19: every label [fit_predict] returns is the position of a centre
    that is nearest to the sample: no centre is closer, and every centre
    at an earlier position is strictly farther (a tie goes to the lowest
    index). *)
Theorem X19_label_is_first_nearest_centre cluster_centers km X labels i x l :
  List.length (cluster_centers km X) = Z.to_nat (n_clusters km) ->
  fit_predict cluster_centers km X = Ok labels ->
  nth_error X i = Some x ->
  nth_error labels i = Some l ->
  exists c0,
    nth_error (cluster_centers km X) l = Some c0
    /\ forall j c, nth_error (cluster_centers km X) j = Some c ->
         sq_dist x c0 <= sq_dist x c
         /\ ((j < l)%nat -> sq_dist x c0 < sq_dist x c).
Proof.
  intros Hlen H Hx Hl. unfold fit_predict, check_params_vs_input in H.
  destruct (Z.ltb_spec (n_clusters km) 1); [discriminate|].
  destruct (Z.ltb_spec (Z.of_nat (List.length X)) (n_clusters km));
    [discriminate|].
  simpl in H. inversion H; subst labels. clear H.
  rewrite nth_error_map, Hx in Hl. simpl in Hl. inversion Hl; subst l.
  apply nearest_spec. intros E. rewrite E in Hlen. simpl in Hlen. lia.
Qed.

Lemma X19_label_is_first_nearest_centre_witness :
  exists c0,
    nth_error (first_samples kmeans corners4) 2 = Some c0
    /\ forall j c, nth_error (first_samples kmeans corners4) j = Some c ->
         sq_dist [0; 1] c0 <= sq_dist [0; 1] c
         /\ ((j < 2)%nat -> sq_dist [0; 1] c0 < sq_dist [0; 1] c).
Proof.
  apply (X19_label_is_first_nearest_centre first_samples kmeans corners4
           [0; 1; 2; 3]%nat 2 [0; 1] 2);
    reflexivity.
Defined.

Lemma fit_predict_length cluster_centers km X labels :
  fit_predict cluster_centers km X = Ok labels ->
  labels = map (nearest (cluster_centers km X)) X.
Proof.
  unfold fit_predict. destruct (check_params_vs_input _ _); simpl; congruence.
Qed.

(** X20: with exactly four profiled customers, if each of the four
    clusters gets a customer the script stops at the Davies-Bouldin score
    with [ValueError]: four distinct labels on four samples are refused. *)
Theorem X20_four_customers_four_clusters cluster_centers fit_transform
    profiles labels :
  (forall rows, List.length (fit_transform rows) = List.length rows) ->
  List.length profiles = 4%nat ->
  fit_predict cluster_centers kmeans
    (fit_transform (map (fun p => (Quantity p, TotalValue p)) profiles))
    = Ok labels ->
  (forall k, (k < 4)%nat -> In k labels) ->
  scored_assignment cluster_centers fit_transform profiles = Raise ValueError.
Proof.
  intros Hft Hn Hfit Hall. unfold scored_assignment. rewrite Hfit. simpl.
  assert (Hlen : List.length labels = 4%nat).
  { rewrite (fit_predict_length _ _ _ _ Hfit), length_map, Hft, length_map.
    exact Hn. }
  assert (Hnd : NoDup labels).
  { apply NoDup_incl_NoDup with (l := [0; 1; 2; 3]%nat).
    - repeat constructor; simpl; lia.
    - rewrite Hlen. simpl. lia.
    - intros k Hk. apply Hall. simpl in Hk. lia. }
  unfold n_labels. rewrite (nodup_fixed_point Nat.eq_dec Hnd), Hlen.
  rewrite Hft, length_map, Hn. reflexivity.
Qed.

Lemma X20_four_customers_four_clusters_witness :
  scored_assignment first_samples plain_scale
    (customer_profiles transactions4 customers3) = Raise ValueError.
Proof.
  apply (X20_four_customers_four_clusters first_samples plain_scale
           (customer_profiles transactions4 customers3) [0; 1; 2; 3]%nat).
  - intros rows. apply length_map.
  - reflexivity.
  - reflexivity.
  - intros k Hk. simpl. lia.
Defined.

Lemma nodup_constant (a : nat) l :
  l <> [] -> (forall y, In y l -> y = a) -> nodup Nat.eq_dec l = [a].
Proof.
  induction l as [|y l IH]; intros Hne Hall; [congruence|].
  assert (y = a) by (apply Hall; now left). subst y. simpl.
  destruct l as [|z l].
  - simpl. reflexivity.
  - destruct (in_dec Nat.eq_dec a (z :: l)) as [Hin|Hn].
    + apply IH; [discriminate|]. intros y Hy. apply Hall. now right.
    + exfalso. apply Hn. left. apply Hall. right. now left.
Qed.

(** X21: when the scaled samples of at least four profiled customers all
    coincide, every customer gets the same label, whichever centres the fit
    ends with, and the script stops at the Davies-Bouldin score with
    [ValueError]. *)
Theorem X21_coinciding_samples_stop_the_script cluster_centers fit_transform
    profiles x :
  (forall rows, List.length (fit_transform rows) = List.length rows) ->
  (4 <= List.length profiles)%nat ->
  (forall y,
     In y (fit_transform (map (fun p => (Quantity p, TotalValue p)) profiles)) ->
     y = x) ->
  scored_assignment cluster_centers fit_transform profiles = Raise ValueError.
Proof.
  intros Hft Hn Hsame. unfold scored_assignment.
  set (X := fit_transform _) in *.
  assert (HX : List.length X = List.length profiles)
    by (unfold X; now rewrite Hft, length_map).
  unfold fit_predict, check_params_vs_input.
  change (n_clusters kmeans) with 4%Z.
  destruct (Z.ltb_spec 4 1); [lia|].
  destruct (Z.ltb_spec (Z.of_nat (List.length X)) 4); [lia|]. simpl.
  unfold n_labels.
  rewrite (nodup_constant (nearest (cluster_centers kmeans X) x)).
  - reflexivity.
  - destruct X; [simpl in HX; lia | discriminate].
  - intros l Hl. apply in_map_iff in Hl. destruct Hl as (y & <- & Hy).
    now rewrite (Hsame y Hy).
Qed.

Lemma X21_coinciding_samples_stop_the_script_witness :
  scored_assignment first_samples zero_scale
    (customer_profiles transactions4 customers3) = Raise ValueError.
Proof.
  apply (X21_coinciding_samples_stop_the_script first_samples zero_scale
           (customer_profiles transactions4 customers3) [0; 0]).
  - intros rows. apply length_map.
  - vm_compute. lia.
  - intros y Hy. unfold zero_scale in Hy. apply in_map_iff in Hy.
    destruct Hy as (r & <- & _). reflexivity.
Defined.
End LabelsAndScores.

(** * Task 1: facts about series *)

Section SeriesFacts.
Import Eda.
Variable K : Type.
Variable K_dec : forall a b : K, {a = b} + {a <> b}.

Lemma first_seen_In (col : list K) v : In v (first_seen K_dec col) <-> In v col.
Proof.
  unfold first_seen. now rewrite <- in_rev, nodup_In, <- in_rev.
Qed.

Lemma first_seen_NoDup (col : list K) : NoDup (first_seen K_dec col).
Proof. unfold first_seen. apply NoDup_rev, NoDup_nodup. Qed.

Section ValueFacts.
Variable V : Type.
Variable ltb : V -> V -> bool.

Lemma insert_desc_perm (x : K * V) s :
  Permutation (insert_desc ltb x s) (x :: s).
Proof.
  induction s as [|y s IH]; simpl; auto.
  destruct (ltb (snd x) (snd y)); auto.
  rewrite IH. apply perm_swap.
Qed.

Lemma sort_values_desc_perm (s : series K V) :
  Permutation (sort_values_desc ltb s) s.
Proof.
  induction s as [|x s IH]; simpl; auto.
  rewrite insert_desc_perm. now constructor.
Qed.

Variable better : V -> V -> bool.
Hypothesis better_trans :
  forall a b c, better a b = true -> better b c = true -> better a c = true.
Hypothesis better_cotrans :
  forall a b c, better a b = true -> better c b = false -> better a c = true.

(** The scan returns an entry of the series; it is strictly better than
    every entry before it, and no entry after it is strictly better. *)
Lemma first_best_split (s : series K V) :
  forall (pre : series K V) (best : K * V) (mid : series K V),
  (forall x, In x pre -> better (snd best) (snd x) = true) ->
  (forall x, In x mid -> better (snd x) (snd best) = false) ->
  exists pre' post',
    pre ++ best :: mid ++ s = pre' ++ first_best better best s :: post'
    /\ (forall x, In x pre' ->
          better (snd (first_best better best s)) (snd x) = true)
    /\ (forall x, In x post' ->
          better (snd x) (snd (first_best better best s)) = false).
Proof.
  induction s as [|kv s IH]; intros pre best mid Hpre Hmid.
  - simpl. exists pre, mid. rewrite app_nil_r. auto.
  - simpl. destruct (better (snd kv) (snd best)) eqn:E.
    + destruct (IH (pre ++ best :: mid) kv []) as (pre' & post' & Eq & H1 & H2).
      * intros x Hx. apply in_app_or in Hx. destruct Hx as [Hx|[<-|Hx]].
        -- eapply better_trans; eauto.
        -- exact E.
        -- eapply better_cotrans; eauto.
      * intros x [].
      * exists pre', post'. split; [|auto].
        rewrite <- Eq. simpl. now rewrite <- app_assoc.
    + destruct (IH pre best (mid ++ [kv])) as (pre' & post' & Eq & H1 & H2).
      * exact Hpre.
      * intros x Hx. apply in_app_or in Hx. destruct Hx as [Hx|[<-|[]]]; auto.
      * exists pre', post'. split; [|auto].
        rewrite <- Eq. now rewrite <- app_assoc.
Qed.
End ValueFacts.

(** [idxmax] on counts. *)
Lemma max_entry_counts (s : series K nat) :
  match max_entry Nat.ltb s with
  | Raise e => e = ValueError /\ s = []
  | Ok r =>
      exists pre post,
        s = pre ++ r :: post
        /\ (forall x, In x pre -> (snd x < snd r)%nat)
        /\ (forall x, In x post -> (snd x <= snd r)%nat)
  end.
Proof.
  destruct s as [|kv s]; [simpl; auto|]. cbn [max_entry].
  destruct (first_best_split nat (fun new best => Nat.ltb best new)) with
    (s := s) (pre := @nil (K * nat)) (best := kv) (mid := @nil (K * nat))
    as (pre & post & Eq & H1 & H2).
  - intros a b c. rewrite !Nat.ltb_lt. lia.
  - intros a b c. rewrite Nat.ltb_lt, Nat.ltb_ge, Nat.ltb_lt. lia.
  - intros x [].
  - intros x [].
  - exists pre, post. split; [exact Eq|]. split.
    + intros x Hx. apply Nat.ltb_lt. now apply H1.
    + intros x Hx. apply Nat.ltb_ge. now apply H2.
Qed.

Lemma min_entry_counts (s : series K nat) :
  match min_entry Nat.ltb s with
  | Raise e => e = ValueError /\ s = []
  | Ok r =>
      In r s /\ forall x, In x s -> (snd r <= snd x)%nat
  end.
Proof.
  destruct s as [|kv s]; [simpl; auto|]. cbn [min_entry].
  destruct (first_best_split nat (fun new best => Nat.ltb new best)) with
    (s := s) (pre := @nil (K * nat)) (best := kv) (mid := @nil (K * nat))
    as (pre & post & Eq & H1 & H2).
  - intros a b c. rewrite !Nat.ltb_lt. lia.
  - intros a b c. rewrite Nat.ltb_lt, Nat.ltb_ge, Nat.ltb_lt. lia.
  - intros x [].
  - intros x [].
  - change (kv :: s) with ([] ++ kv :: [] ++ s). rewrite Eq.
    split; [apply in_or_app; right; now left|].
    intros x Hx. apply in_app_or in Hx. destruct Hx as [Hx|[<-|Hx]].
    + apply H1 in Hx. apply Nat.ltb_lt in Hx. lia.
    + lia.
    + apply H2 in Hx. apply Nat.ltb_ge in Hx. exact Hx.
Qed.

(** The entries of [value_counts]: each distinct value once, with the
    number of its occurrences. *)
Lemma value_counts_entries (col : list K) x :
  In x (value_counts K_dec col)
  <-> In (fst x) col /\ snd x = count_occ K_dec col (fst x).
Proof.
  unfold value_counts. split.
  - intros H. eapply Permutation_in in H; [|apply sort_values_desc_perm].
    apply in_map_iff in H. destruct H as (v & <- & Hv). simpl.
    split; [now apply first_seen_In | reflexivity].
  - intros [Hin Hc]. eapply Permutation_in;
      [symmetry; apply sort_values_desc_perm|].
    apply in_map_iff. exists (fst x). split.
    + destruct x; simpl in *. now subst.
    + now apply first_seen_In.
Qed.

Lemma value_counts_labels_NoDup (col : list K) :
  NoDup (map fst (value_counts K_dec col)).
Proof.
  unfold value_counts.
  eapply Permutation_NoDup;
    [symmetry; apply Permutation_map, sort_values_desc_perm|].
  rewrite map_map. simpl. rewrite map_id. apply first_seen_NoDup.
Qed.
End SeriesFacts.

(** * Task 1: regions and months *)

Section RegionsAndMonths.
Import Pandas Eda Views Examples.

(** X22: the region reported as most common has at least as many customers
    as every region of the table, the one reported as least common at most
    as many, both are regions of the table, and on an empty customer table
    [idxmax] and [idxmin] raise [ValueError]. *)
Theorem X22_region_extremes cs :
  (most_common_region cs = Raise ValueError <-> cs = [])
  /\ (least_common_region cs = Raise ValueError <-> cs = [])
  /\ (forall top, most_common_region cs = Ok top ->
        In top (map c_Region cs)
        /\ forall c, In c cs ->
             (count_occ string_dec (map c_Region cs) (c_Region c)
              <= count_occ string_dec (map c_Region cs) top)%nat)
  /\ (forall low, least_common_region cs = Ok low ->
        In low (map c_Region cs)
        /\ forall c, In c cs ->
             (count_occ string_dec (map c_Region cs) low
              <= count_occ string_dec (map c_Region cs) (c_Region c))%nat).
Proof.
  unfold most_common_region, least_common_region, idxmax, idxmin, region_counts.
  set (col := map c_Region cs).
  assert (Hentry : forall c, In c cs ->
            In (c_Region c, count_occ string_dec col (c_Region c))
               (value_counts string_dec col)).
  { intros c Hc. apply value_counts_entries. simpl. split; [|reflexivity].
    unfold col. now apply in_map. }
  assert (Hempty : value_counts string_dec col = [] -> cs = []).
  { intros E. destruct cs as [|c cs']; [reflexivity|].
    specialize (Hentry c (or_introl eq_refl)). rewrite E in Hentry.
    destruct Hentry. }
  pose proof (max_entry_counts string (value_counts string_dec col))
    as Hmax.
  pose proof (min_entry_counts string (value_counts string_dec col))
    as Hmin.
  destruct (max_entry Nat.ltb (value_counts string_dec col)) as [r|e];
    destruct (min_entry Nat.ltb (value_counts string_dec col)) as [r'|e'];
    simpl.
  - destruct Hmax as (pre & post & Eq & H1 & H2). destruct Hmin as [Hin' Hle'].
    assert (Hr : In r (value_counts string_dec col))
      by (rewrite Eq; apply in_or_app; right; now left).
    apply value_counts_entries in Hr. destruct Hr as [Hr Hrc].
    apply value_counts_entries in Hin'. destruct Hin' as [Hr' Hrc'].
    split; [split; [discriminate | intros ->; destruct Hr]|].
    split; [split; [discriminate | intros ->; destruct Hr]|].
    split.
    + intros top Et. inversion Et; subst top. split; [exact Hr|].
      intros c Hc. rewrite <- Hrc. specialize (Hentry c Hc).
      rewrite Eq in Hentry. apply in_app_or in Hentry.
      destruct Hentry as [Hx|[Hx|Hx]].
      * apply H1 in Hx. simpl in Hx. lia.
      * rewrite Hx. simpl. lia.
      * apply H2 in Hx. exact Hx.
    + intros low El. inversion El; subst low. split; [exact Hr'|].
      intros c Hc. rewrite <- Hrc'. apply (Hle' _ (Hentry c Hc)).
  - destruct Hmin as [_ E]. destruct Hmax as (pre & post & Eq & _).
    rewrite E in Eq. destruct pre; discriminate.
  - destruct Hmax as [_ E]. destruct Hmin as [Hin' _].
    rewrite E in Hin'. destruct Hin'.
  - destruct Hmax as [-> E]. destruct Hmin as [-> _].
    apply Hempty in E.
    split; [tauto|]. split; [tauto|]. split; intros ? ?; discriminate.
Qed.

Lemma Period_leb_total a b : Period_leb a b = true \/ Period_leb b a = true.
Proof.
  unfold Period_leb. destruct a as [y m], b as [y' m']. simpl.
  destruct (Z.ltb_spec y y'), (Z.ltb_spec y' y), (Z.eqb_spec y y'),
    (Z.eqb_spec y' y), (Z.leb_spec m m'), (Z.leb_spec m' m);
    simpl; auto; lia.
Qed.

Lemma Period_leb_trans a b c :
  Period_leb a b = true -> Period_leb b c = true -> Period_leb a c = true.
Proof.
  unfold Period_leb. destruct a as [y m], b as [y' m'], c as [y'' m''].
  simpl.
  destruct (Z.ltb_spec y y'), (Z.ltb_spec y' y''), (Z.ltb_spec y y''),
    (Z.eqb_spec y y'), (Z.eqb_spec y' y''), (Z.eqb_spec y y''),
    (Z.leb_spec m m'), (Z.leb_spec m' m''), (Z.leb_spec m m'');
    simpl; auto; try lia; discriminate.
Qed.

Lemma Period_leb_antisym a b :
  Period_leb a b = true -> Period_leb b a = true -> a = b.
Proof.
  unfold Period_leb. destruct a as [y m], b as [y' m']. simpl.
  destruct (Z.ltb_spec y y'), (Z.ltb_spec y' y), (Z.eqb_spec y y'),
    (Z.eqb_spec y' y), (Z.leb_spec m m'), (Z.leb_spec m' m);
    simpl; intros; try discriminate; try lia.
  f_equal; lia.
Qed.

Lemma insert_index_perm {V} (x : Period * V) s :
  Permutation (insert_index Period_leb x s) (x :: s).
Proof.
  induction s as [|y s IH]; simpl; auto.
  destruct (Period_leb (fst x) (fst y)); auto.
  rewrite IH. apply perm_swap.
Qed.

Lemma sort_index_perm {V} (s : series Period V) :
  Permutation (sort_index Period_leb s) s.
Proof.
  induction s as [|x s IH]; simpl; auto.
  rewrite insert_index_perm. now constructor.
Qed.

Lemma insert_index_sorted {V} (x : Period * V) s :
  StronglySorted (fun a b => Period_leb (fst a) (fst b) = true) s ->
  StronglySorted (fun a b => Period_leb (fst a) (fst b) = true)
    (insert_index Period_leb x s).
Proof.
  induction 1 as [|y s Hs IH Hall]; simpl.
  - repeat constructor.
  - destruct (Period_leb (fst x) (fst y)) eqn:E.
    + constructor; [now constructor|]. constructor; [exact E|].
      eapply Forall_impl; [|exact Hall].
      intros z Hz. eapply Period_leb_trans; eauto.
    + constructor; [exact IH|].
      eapply Permutation_Forall; [symmetry; apply insert_index_perm|].
      constructor; [|exact Hall].
      destruct (Period_leb_total (fst x) (fst y)); congruence.
Qed.

Lemma sort_index_sorted {V} (s : series Period V) :
  StronglySorted (fun a b => Period_leb (fst a) (fst b) = true)
    (sort_index Period_leb s).
Proof.
  induction s; simpl; [constructor | now apply insert_index_sorted].
Qed.

(** X25: the month reported as the peak has the largest number of rows,
    and every earlier month has strictly fewer: of several months with the
    largest count the earliest is reported.  With no row at all [idxmax]
    raises [ValueError]. *)
Theorem X25_peak_month_is_earliest_maximum dates :
  (peak_month dates = Raise ValueError <-> dates = [])
  /\ (forall peak, peak_month dates = Ok peak ->
        In peak (map to_period_M dates)
        /\ forall d, In d dates ->
             (count_occ Period_dec (map to_period_M dates) (to_period_M d)
              <= count_occ Period_dec (map to_period_M dates) peak)%nat
             /\ (earlier (to_period_M d) peak ->
                 (count_occ Period_dec (map to_period_M dates) (to_period_M d)
                  < count_occ Period_dec (map to_period_M dates) peak)%nat)).
Proof.
  unfold peak_month, idxmax, monthly_counts.
  set (col := map to_period_M dates).
  set (s := sort_index Period_leb (value_counts Period_dec col)).
  assert (Hin : forall x, In x s <->
                  In (fst x) col /\ snd x = count_occ Period_dec col (fst x)).
  { intros x. rewrite <- value_counts_entries. unfold s. split; intros H.
    - eapply Permutation_in; [apply sort_index_perm | exact H].
    - eapply Permutation_in; [symmetry; apply sort_index_perm | exact H]. }
  assert (Hnd : NoDup (map fst s)).
  { eapply Permutation_NoDup;
      [symmetry; apply Permutation_map, sort_index_perm|].
    apply value_counts_labels_NoDup. }
  pose proof (sort_index_sorted (value_counts Period_dec col)) as Hsorted.
  fold s in Hsorted.
  assert (Hentry : forall d, In d dates ->
            In (to_period_M d, count_occ Period_dec col (to_period_M d)) s).
  { intros d Hd. apply Hin. simpl. split; [|reflexivity].
    unfold col. now apply in_map. }
  pose proof (max_entry_counts Period s) as Hmax.
  destruct (max_entry Nat.ltb s) as [r|e]; simpl.
  - destruct Hmax as (pre & post & Eq & H1 & H2).
    assert (Hr : In r s) by (rewrite Eq; apply in_or_app; right; now left).
    apply Hin in Hr. destruct Hr as [Hr Hrc].
    split.
    + split; [discriminate|]. intros ->. destruct Hr.
    + intros peak Ep. inversion Ep; subst peak. split; [exact Hr|].
      intros d Hd. rewrite <- Hrc. specialize (Hentry d Hd).
      rewrite Eq in Hentry, Hsorted, Hnd.
      apply in_app_or in Hentry. destruct Hentry as [Hx|[Hx|Hx]].
      * apply H1 in Hx. simpl in Hx. split; [lia | intros _; exact Hx].
      * split; [rewrite Hx; simpl; lia|].
        intros [_ Hne]. rewrite Hx in Hne. simpl in Hne. congruence.
      * split; [apply H2 in Hx; exact Hx|].
        intros [Hle Hne]. exfalso. apply Hne.
        apply Period_leb_antisym; [exact Hle|].
        assert (Hs2 : StronglySorted
                        (fun a b : Period * nat =>
                           Period_leb (fst a) (fst b) = true)
                        ((pre ++ [r]) ++ post))
          by (rewrite <- app_assoc; exact Hsorted).
        assert (Hr2 : In r (pre ++ [r])) by (apply in_or_app; right; now left).
        pose proof (StronglySorted_app_cross _ _ _ _ _ Hs2 Hr2 Hx) as Hc.
        exact Hc.
  - destruct Hmax as [-> E]. split; [|intros ? ?; discriminate].
    split; [|reflexivity]. intros _.
    destruct dates as [|d ds]; [reflexivity|].
    specialize (Hentry d (or_introl eq_refl)). rewrite E in Hentry.
    destruct Hentry.
Qed.
End RegionsAndMonths.

(** * Task 1: sales per category *)

Section CategorySales.
Import Pandas Aggregator Eda Sklearn Views Examples.

Lemma max_entry_values {K} (s : series K Q) :
  match max_entry Qlt_bool s with
  | Raise e => e = ValueError /\ s = []
  | Ok r => In r s /\ forall x, In x s -> snd x <= snd r
  end.
Proof.
  destruct s as [|kv s]; [simpl; auto|]. cbn [max_entry].
  destruct (first_best_split K Q (fun new best => Qlt_bool best new)) with
    (s := s) (pre := @nil (K * Q)) (best := kv) (mid := @nil (K * Q))
    as (pre & post & Eq & H1 & H2).
  - intros a b c. rewrite !Qlt_bool_iff. intros. eapply Qlt_trans; eauto.
  - intros a b c. rewrite !Qlt_bool_iff. intros Hba Hbc.
    destruct (Qlt_le_dec c a) as [Hlt|Hle]; [exact Hlt|].
    assert (Hbc' : b < c) by (eapply Qlt_le_trans; eauto).
    apply Qlt_bool_iff in Hbc'. congruence.
  - intros x [].
  - intros x [].
  - change (kv :: s) with ([] ++ kv :: [] ++ s). rewrite Eq.
    split; [apply in_or_app; right; now left|].
    intros x Hx. apply in_app_or in Hx. destruct Hx as [Hx|[<-|Hx]].
    + apply H1 in Hx. apply Qlt_bool_iff in Hx. now apply Qlt_le_weak.
    + apply Qle_refl.
    + apply H2 in Hx.
      destruct (Qlt_le_dec (snd (first_best (fun new best => Qlt_bool best new) kv s)) (snd x))
        as [Hlt|Hle]; [|exact Hle].
      apply Qlt_bool_iff in Hlt. congruence.
Qed.

Lemma known_categories_In rows k :
  In k (known_categories rows) <-> exists r, In r rows /\ m_Category r = Some k.
Proof.
  unfold known_categories. rewrite unique_sorted_In, in_flat_map. split.
  - intros (r & Hr & Hk). exists r. split; [exact Hr|].
    destruct (m_Category r); simpl in Hk; [|tauto].
    destruct Hk as [->|[]]. reflexivity.
  - intros (r & Hr & E). exists r. split; [exact Hr|]. rewrite E. now left.
Qed.

Lemma merged_row_category ts ps r k :
  In r (merged_data ts ps) -> m_Category r = Some k ->
  exists t p, In t ts /\ In p ps
    /\ p_ProductID p = t_ProductID t /\ p_Category p = k.
Proof.
  unfold merged_data. rewrite in_flat_map. intros (t & Ht & Hr) Hk.
  destruct (filter (fun p => String.eqb (p_ProductID p) (t_ProductID t)) ps)
    as [|p0 ps'] eqn:F.
  - destruct Hr as [<-|[]]. discriminate.
  - apply in_map_iff in Hr. destruct Hr as (p & <- & Hp).
    rewrite <- F in Hp. apply filter_In in Hp. destruct Hp as [Hp Hid].
    apply String.eqb_eq in Hid. simpl in Hk. inversion Hk.
    exists t, p. auto.
Qed.

Lemma category_row ts ps t p :
  In t ts -> In p ps -> p_ProductID p = t_ProductID t ->
  In (merged_row t (Some (p_Category p))) (merged_data ts ps).
Proof.
  intros Ht Hp Hid. unfold merged_data. apply in_flat_map.
  exists t. split; [exact Ht|].
  assert (Hf : In p (filter (fun p => String.eqb (p_ProductID p) (t_ProductID t)) ps)).
  { apply filter_In. split; [exact Hp|]. now apply String.eqb_eq. }
  destruct (filter _ ps) as [|p0 ps']; [destruct Hf|].
  apply in_map_iff. exists p. auto.
Qed.

Lemma category_labels ts ps k :
  In k (map fst (category_sales ts ps))
  <-> exists t p, In t ts /\ In p ps
        /\ p_ProductID p = t_ProductID t /\ p_Category p = k.
Proof.
  unfold category_sales.
  set (rows := merged_data ts ps).
  set (s0 := map (fun k => (k, sumQ (map m_TotalValue (filter (in_category k) rows))))
               (known_categories rows)).
  pose proof (sort_values_desc_perm string Q Qlt_bool s0) as Hperm.
  assert (Hfst : map fst s0 = known_categories rows).
  { unfold s0. rewrite map_map. simpl. apply map_id. }
  assert (Hk : In k (map fst (sort_values_desc Qlt_bool s0))
               <-> In k (known_categories rows)).
  { rewrite <- Hfst. split; apply Permutation_in;
      [|symmetry]; apply Permutation_map, Hperm. }
  rewrite Hk, known_categories_In. split.
  - intros (r & Hr & E). eapply merged_row_category; eauto.
  - intros (t & p & Ht & Hp & Hid & <-).
    exists (merged_row t (Some (p_Category p))). split; [|reflexivity].
    now apply category_row.
Qed.

Lemma known_product_existsb ps t :
  existsb (fun p => String.eqb (p_ProductID p) (t_ProductID t)) ps
  = match filter (fun p => String.eqb (p_ProductID p) (t_ProductID t)) ps with
    | [] => false
    | _ => true
    end.
Proof.
  induction ps as [|p ps IH]; [reflexivity|]. cbn [existsb filter].
  destruct (String.eqb (p_ProductID p) (t_ProductID t)); [reflexivity | exact IH].
Qed.

(** The joined rows that have a category are the joined rows of the
    transactions whose product is known. *)
Lemma known_rows ts ps :
  filter (fun r => match m_Category r with Some _ => true | None => false end)
    (merged_data ts ps)
  = merged_data (known_product_transactions ts ps) ps.
Proof.
  unfold merged_data, known_product_transactions.
  induction ts as [|t ts IH]; [reflexivity|].
  cbn [flat_map filter]. rewrite filter_app, IH, known_product_existsb.
  destruct (filter (fun p => String.eqb (p_ProductID p) (t_ProductID t)) ps)
    as [|p0 ps'] eqn:F.
  - reflexivity.
  - cbn [flat_map]. rewrite F. f_equal.
    generalize (p0 :: ps'). intros l.
    induction l as [|x l IHl]; [reflexivity|].
    cbn [map filter merged_row m_Category]. now rewrite IHl.
Qed.

Lemma in_category_known k rows :
  filter (in_category k) rows
  = filter (in_category k)
      (filter (fun r => match m_Category r with Some _ => true | None => false end)
         rows).
Proof.
  induction rows as [|r rows IH]; [reflexivity|].
  cbn [filter]. rewrite IH. unfold in_category.
  destruct (m_Category r) as [c|] eqn:E; cbn [filter]; rewrite ?E; reflexivity.
Qed.

Lemma known_categories_known rows :
  known_categories rows
  = known_categories
      (filter (fun r => match m_Category r with Some _ => true | None => false end)
         rows).
Proof.
  unfold known_categories. f_equal.
  induction rows as [|r rows IH]; [reflexivity|].
  cbn [flat_map filter].
  destruct (m_Category r) as [c|] eqn:E; [|exact IH].
  cbn [flat_map]. now rewrite E, IH.
Qed.

(** X23: the category sales have one entry per category of a product
    some transaction bought, and they are the category sales of the
    transactions whose product is in the product table: a transaction with
    an unknown product enters no category's total. *)
Theorem X23_category_sales_cover_known_products ts ps :
  NoDup (map fst (category_sales ts ps))
  /\ (forall k, In k (map fst (category_sales ts ps))
        <-> exists t p, In t ts /\ In p ps
              /\ p_ProductID p = t_ProductID t /\ p_Category p = k)
  /\ category_sales ts ps
     = category_sales (known_product_transactions ts ps) ps.
Proof.
  split; [|split].
  - unfold category_sales.
    set (rows := merged_data ts ps).
    set (s0 := map (fun k => (k, sumQ (map m_TotalValue (filter (in_category k) rows))))
                 (known_categories rows)).
    pose proof (sort_values_desc_perm string Q Qlt_bool s0) as Hperm.
    eapply Permutation_NoDup; [symmetry; apply Permutation_map, Hperm|].
    unfold s0. rewrite map_map. simpl. rewrite map_id.
    apply unique_sorted_NoDup.
  - apply category_labels.
  - unfold category_sales.
    rewrite <- (known_rows ts ps), <- known_categories_known.
    f_equal. apply map_ext. intros k.
    now rewrite <- in_category_known.
Qed.

(** X24: the category reported as top has the largest total among the
    category sales; when no transaction has a product of the product
    table there is no category and [idxmax] raises [ValueError]. *)
Theorem X24_top_category_has_largest_sales ts ps :
  (top_category ts ps = Raise ValueError
   <-> forall t p, In t ts -> In p ps -> p_ProductID p <> t_ProductID t)
  /\ (forall top, top_category ts ps = Ok top ->
        exists v,
          In (top, v) (category_sales ts ps)
          /\ forall k v', In (k, v') (category_sales ts ps) -> v' <= v).
Proof.
  unfold top_category, idxmax.
  pose proof (max_entry_values (category_sales ts ps)) as Hmax.
  assert (Hlabels : forall k, In k (map fst (category_sales ts ps))
             <-> exists t p, In t ts /\ In p ps
                   /\ p_ProductID p = t_ProductID t /\ p_Category p = k).
  { intros k. unfold category_sales.
    set (rows := merged_data ts ps).
    set (s0 := map (fun k => (k, sumQ (map m_TotalValue (filter (in_category k) rows))))
                 (known_categories rows)).
    pose proof (sort_values_desc_perm string Q Qlt_bool s0) as Hperm.
    assert (Hfst : map fst s0 = known_categories rows).
    { unfold s0. rewrite map_map. simpl. apply map_id. }
    assert (Hk : In k (map fst (sort_values_desc Qlt_bool s0))
                 <-> In k (known_categories rows)).
    { rewrite <- Hfst. split; apply Permutation_in;
        [|symmetry]; apply Permutation_map, Hperm. }
    rewrite Hk, known_categories_In. split.
    - intros (r & Hr & E). eapply merged_row_category; eauto.
    - intros (t & p & Ht & Hp & Hid & <-).
      exists (merged_row t (Some (p_Category p))). split; [|reflexivity].
      now apply category_row. }
  destruct (max_entry Qlt_bool (category_sales ts ps)) as [[top v]|e]; simpl.
  - destruct Hmax as [Hin Hle]. split.
    + split; [discriminate|]. intros Hnone. exfalso.
      assert (Ht : In top (map fst (category_sales ts ps)))
        by (apply in_map_iff; exists (top, v); auto).
      apply Hlabels in Ht. destruct Ht as (t & p & Ht & Hp & Hid & _).
      exact (Hnone t p Ht Hp Hid).
    + intros top' E. inversion E; subst top'. exists v. split; [exact Hin|].
      intros k v' Hkv. exact (Hle (k, v') Hkv).
  - destruct Hmax as [-> E]. split; [|intros ? ?; discriminate].
    split; [|reflexivity]. intros _ t p Ht Hp Hid.
    assert (Hk : In (p_Category p) (map fst (category_sales ts ps)))
      by (apply Hlabels; exists t, p; auto).
    rewrite E in Hk. destruct Hk.
Qed.
End CategorySales.
